(** * The silence slicer of [f5_tts/train/finetune_gradio.py]

    A shallow embedding of the class [Slicer] (constructor, [_apply_slice]
    and [slice]) together with the properties of its scan over the energy
    envelope.

    Python integers are [Z].  Frame and sample indices stay in [Z] because
    the source subtracts them freely and Python slices accept negative
    bounds.  The millisecond arithmetic of the constructor, which Python
    performs with true division, is carried out over [Q].  Energies are kept
    abstract: the scan only ever compares two of them with [<] and takes an
    [argmin]. *)

From Stdlib Require Import ZArith QArith Qround Qabs List Bool String Lia Lqa.
Import ListNotations.

#[local] Open Scope Z_scope.

(** ** Exceptions *)

Inductive exn : Type :=
| ValueError (msg : string)
| ZeroDivisionError
| ParameterError.

Inductive result (A : Type) : Type :=
| Ok (a : A)
| Raise (e : exn).

Arguments Ok {A} a.
Arguments Raise {A} e.

Definition bind {A B : Type} (m : result A) (k : A -> result B) : result B :=
  match m with
  | Ok a => k a
  | Raise e => Raise e
  end.

Notation "x <- m ;; k" := (bind m (fun x => k))
  (at level 61, m at next level, right associativity).

(** ** Python and numpy primitives *)

Definition len {A : Type} (l : list A) : Z := Z.of_nat (List.length l).

(** A slice bound as Python normalises it against a sequence of length [n]:
    a negative bound counts from the end, and the outcome is clipped to
    [0 .. n]. *)
Definition norm_bound (n k : Z) : Z :=
  if k <? 0 then Z.max 0 (n + k) else Z.min n k.

(** [l[a:b]] *)
Definition py_slice {A : Type} (l : list A) (a b : Z) : list A :=
  let a' := norm_bound (len l) a in
  let b' := norm_bound (len l) b in
  firstn (Z.to_nat (b' - a')) (skipn (Z.to_nat a') l).

(** [l[k]] for an index already known to be non-negative. *)
Definition item {A : Type} (l : list A) (k : Z) : option A :=
  if k <? 0 then None else nth_error l (Z.to_nat k).

(** [round(x)] on a float: nearest integer, halves go to the even one. *)
Definition py_round (x : Q) : Z :=
  let f := Qfloor x in
  match Qcompare (x - inject_Z f) (1 # 2) with
  | Lt => f
  | Gt => f + 1
  | Eq => if Z.even f then f else f + 1
  end.

(** [x / d] with a float numerator. *)
Definition truediv (x : Q) (d : Z) : result Q :=
  if d =? 0 then Raise ZeroDivisionError else Ok (x / inject_Z d)%Q.

(** ** The numeric collaborators

    The sample and energy types, the comparison of two energies, the
    decibel conversion, the channel mean and the RMS envelope all come from
    numpy and librosa.  They are an interface here. *)

Class Numeric : Type := {
  sample : Type;
  energy : Type;
  (** [a < b] on two energies *)
  lt : energy -> energy -> bool;
  (** [10 ** (threshold / 20.0)] *)
  db_to_amplitude : Q -> energy;
  (** [waveform.mean(axis=0)] *)
  mean_axis0 : list (list sample) -> list sample;
  (** [librosa.feature.rms(y=, frame_length=, hop_length=).squeeze(0)] *)
  rms : list sample -> Z -> Z -> result (list energy)
}.

(** What the comparison of energies satisfies on floats that are not NaN. *)
Record EnergyOrder `{Numeric} : Prop := {
  lt_asym : forall a b, lt a b = true -> lt b a = false;
  lt_below : forall a b c, lt a b = true -> lt c b = false -> lt a c = true
}.

Section WithNumeric.

Context `{Num : Numeric}.

(** [a.argmin()] on a one-dimensional array: the running minimum is replaced
    only by a strictly smaller element. *)
Fixpoint argmin_from (best_i : Z) (best : energy) (i : Z) (l : list energy) : Z :=
  match l with
  | [] => best_i
  | x :: t =>
      if lt x best then argmin_from i x (i + 1) t
      else argmin_from best_i best (i + 1) t
  end.

Definition argmin (l : list energy) : result Z :=
  match l with
  | [] => Raise (ValueError "attempt to get argmin of an empty sequence")
  | x :: t => Ok (argmin_from 0 x 1 t)
  end.

(** [rms_list[a:b].argmin() + a] *)
Definition min_pos (rms_list : list energy) (a b : Z) : result Z :=
  k <- argmin (py_slice rms_list a b) ;;
  Ok (k + a).

(** ** The waveform *)

Inductive waveform : Type :=
| Mono (y : list sample)
| Multi (channels : list (list sample)).

(** [waveform.shape[1]] of a two-dimensional buffer *)
Definition shape1 (channels : list (list sample)) : Z :=
  len (hd [] channels).

(** ** The slicer *)

Record Slicer : Type := {
  threshold : energy;
  hop_size : Z;
  win_size : Z;
  min_length : Z;
  min_interval : Z;
  max_sil_kept : Z
}.

Definition __init__ (sr : Z) (threshold : Q)
    (min_length min_interval hop_size max_sil_kept : Z) : result Slicer :=
  if negb ((min_length >=? min_interval) && (min_interval >=? hop_size)) then
    Raise (ValueError
      "The following condition must be satisfied: min_length >= min_interval >= hop_size")
  else if negb (max_sil_kept >=? hop_size) then
    Raise (ValueError
      "The following condition must be satisfied: max_sil_kept >= hop_size")
  else
    let min_interval' := (inject_Z (sr * min_interval) / 1000)%Q in
    let threshold' := db_to_amplitude threshold in
    let hop_size' := py_round (inject_Z (sr * hop_size) / 1000)%Q in
    let win_size' := Z.min (py_round min_interval') (4 * hop_size') in
    ml <- truediv (inject_Z (sr * min_length) / 1000)%Q hop_size' ;;
    mi <- truediv min_interval' hop_size' ;;
    ms <- truediv (inject_Z (sr * max_sil_kept) / 1000)%Q hop_size' ;;
    Ok {| threshold := threshold';
          hop_size := hop_size';
          win_size := win_size';
          min_length := py_round ml;
          min_interval := py_round mi;
          max_sil_kept := py_round ms |}.

Variable self : Slicer.

Definition _apply_slice (w : waveform) (begin end_ : Z) : waveform :=
  match w with
  | Multi channels =>
      Multi (map (fun c =>
                    py_slice c (begin * hop_size self)
                      (Z.min (shape1 channels) (end_ * hop_size self)))
                 channels)
  | Mono y =>
      Mono (py_slice y (begin * hop_size self)
              (Z.min (len y) (end_ * hop_size self)))
  end.

(** *** The scan over the envelope *)

(** A range of frames to be removed, a [sil_tags] entry. *)
Definition tag : Type := (Z * Z)%type.

Record scan_state : Type := {
  silence_start : option Z;
  clip_start : Z;
  sil_tags : list tag
}.

Definition scan_init : scan_state :=
  {| silence_start := None; clip_start := 0; sil_tags := [] |}.

Definition is_leading_silence (silence_start i : Z) : bool :=
  (silence_start =? 0) && (i >? max_sil_kept self).

Definition need_slice_middle (silence_start clip_start i : Z) : bool :=
  (i - silence_start >=? min_interval self)
  && (i - clip_start >=? min_length self).

(** The part of the loop body that records a range, reached once the run
    [silence_start .. i) has been accepted. *)
Definition record_range (rms_list : list energy) (st : scan_state)
    (silence_start i : Z) : result scan_state :=
  let msk := max_sil_kept self in
  if i - silence_start <=? msk then
    pos <- min_pos rms_list silence_start (i + 1) ;;
    Ok {| silence_start := None;
          clip_start := pos;
          sil_tags := sil_tags st ++
                      [if silence_start =? 0 then (0, pos) else (pos, pos)] |}
  else if i - silence_start <=? msk * 2 then
    pos <- min_pos rms_list (i - msk) (silence_start + msk + 1) ;;
    pos_l <- min_pos rms_list silence_start (silence_start + msk + 1) ;;
    pos_r <- min_pos rms_list (i - msk) (i + 1) ;;
    if silence_start =? 0 then
      Ok {| silence_start := None;
            clip_start := pos_r;
            sil_tags := sil_tags st ++ [(0, pos_r)] |}
    else
      Ok {| silence_start := None;
            clip_start := Z.max pos_r pos;
            sil_tags := sil_tags st ++ [(Z.min pos_l pos, Z.max pos_r pos)] |}
  else
    pos_l <- min_pos rms_list silence_start (silence_start + msk + 1) ;;
    pos_r <- min_pos rms_list (i - msk) (i + 1) ;;
    Ok {| silence_start := None;
          clip_start := pos_r;
          sil_tags := sil_tags st ++
                      [if silence_start =? 0 then (0, pos_r) else (pos_l, pos_r)] |}.

(** One iteration of [for i, rms in enumerate(rms_list)]. *)
Definition scan_step (rms_list : list energy) (st : scan_state)
    (i : Z) (rms : energy) : result scan_state :=
  if lt rms (threshold self) then
    match silence_start st with
    | None => Ok {| silence_start := Some i;
                    clip_start := clip_start st;
                    sil_tags := sil_tags st |}
    | Some _ => Ok st
    end
  else
    match silence_start st with
    | None => Ok st
    | Some silence_start =>
        if negb (is_leading_silence silence_start i)
           && negb (need_slice_middle silence_start (clip_start st) i)
        then Ok {| silence_start := None;
                   clip_start := clip_start st;
                   sil_tags := sil_tags st |}
        else record_range rms_list st silence_start i
    end.

(** The loop from frame [i] on, [rest] being the frames not yet visited. *)
Fixpoint scan_from (rms_list : list energy) (i : Z) (rest : list energy)
    (st : scan_state) : result scan_state :=
  match rest with
  | [] => Ok st
  | rms :: rest' =>
      st' <- scan_step rms_list st i rms ;;
      scan_from rms_list (i + 1) rest' st'
  end.

Definition scan (rms_list : list energy) : result scan_state :=
  scan_from rms_list 0 rms_list scan_init.

(** The statement after the loop that deals with trailing silence; it
    yields the final [sil_tags]. *)
Definition trailing_silence (rms_list : list energy) (st : scan_state)
    : result (list tag) :=
  let total_frames := len rms_list in
  match silence_start st with
  | Some silence_start =>
      if total_frames - silence_start >=? min_interval self then
        let silence_end := Z.min total_frames (silence_start + max_sil_kept self) in
        pos <- min_pos rms_list silence_start (silence_end + 1) ;;
        Ok (sil_tags st ++ [(pos, total_frames + 1)])
      else Ok (sil_tags st)
  | None => Ok (sil_tags st)
  end.

(** *** The returned list *)

(** An element of the list [slice] returns: the bare waveform on the early
    return, a list [[chunk, start, end]] everywhere else. *)
Inductive slice_item : Type :=
| Bare (w : waveform)
| Chunk (chunk : waveform) (start end_ : Z).

(** [for i in range(len(sil_tags) - 1)]: one chunk per pair of neighbours. *)
Fixpoint between_tags (w : waveform) (sil_tags : list tag) : list slice_item :=
  match sil_tags with
  | t :: (t' :: _) as rest =>
      Chunk (_apply_slice w (snd t) (fst t'))
            (snd t * hop_size self) (fst t' * hop_size self)
      :: between_tags w rest
  | _ => []
  end.

Definition apply_slices (w : waveform) (total_frames : Z) (sil_tags : list tag)
    : list slice_item :=
  match sil_tags with
  | [] => [Chunk w 0 (total_frames * hop_size self)]
  | first :: _ =>
      let final := last sil_tags first in
      (if fst first >? 0
       then [Chunk (_apply_slice w 0 (fst first)) 0 (fst first * hop_size self)]
       else [])
      ++ between_tags w sil_tags
      ++ (if snd final <? total_frames
          then [Chunk (_apply_slice w (snd final) total_frames)
                      (snd final * hop_size self) (total_frames * hop_size self)]
          else [])
  end.

Definition mono_samples (w : waveform) : list sample :=
  match w with
  | Multi channels => mean_axis0 channels
  | Mono y => y
  end.

Definition slice (w : waveform) : result (list slice_item) :=
  let samples := mono_samples w in
  if len samples <=? min_length self then Ok [Bare w]
  else
    rms_list <- rms samples (win_size self) (hop_size self) ;;
    st <- scan rms_list ;;
    sil_tags <- trailing_silence rms_list st ;;
    Ok (apply_slices w (len rms_list) sil_tags).

End WithNumeric.

Arguments Slicer {Num}.
Arguments waveform {Num}.
Arguments slice_item {Num}.

(** ** A concrete instance to run the slicer on

    Samples and energies are rationals.  The envelope is the peak of each
    centred analysis window instead of its root mean square; it has
    librosa's framing (the signal is padded by [frame_length // 2] on both
    sides, so there are [1 + len(y) // hop_length] frames for an even window)
    and it is zero on exactly the frames on which the RMS is zero. *)

Module Rational.

Definition Qltb (a b : Q) : bool := negb (Qle_bool b a).

(** Exact on multiples of 20 dB. *)
Definition db_to_amplitude (db : Q) : Q := Qpower 10 (Qfloor (db / 20)).

Definition add_channel (acc c : list Q) : list Q :=
  map (fun p => (fst p + snd p)%Q) (combine acc c).

Definition mean_axis0 (channels : list (list Q)) : list Q :=
  match channels with
  | [] => []
  | c :: cs =>
      map (fun x => (x / inject_Z (len channels))%Q) (fold_left add_channel cs c)
  end.

Definition peak (l : list Q) : Q :=
  fold_left (fun m x => if Qle_bool m (Qabs x) then Qabs x else m) l 0%Q.

Definition frame_indices (n : Z) : list Z :=
  map Z.of_nat (seq 0 (Z.to_nat n)).

Definition rms (y : list Q) (frame_length hop_length : Z) : result (list Q) :=
  if (frame_length <? 1) || (hop_length <? 1) then Raise ParameterError
  else
    let pad := frame_length / 2 in
    let padded := len y + 2 * pad in
    if padded <? frame_length then Raise ParameterError
    else
      Ok (map (fun t =>
                 let a := t * hop_length - pad in
                 peak (py_slice y (Z.max 0 a) (Z.max 0 (a + frame_length))))
              (frame_indices (1 + (padded - frame_length) / hop_length))).

#[export] Instance numeric : Numeric :=
  Build_Numeric Q Q Qltb db_to_amplitude mean_axis0 rms.

(** A one-dimensional waveform. *)
Definition mono (y : list Q) : waveform := Mono y.

(** [Slicer(24000)], the only slicer the application builds. *)
Definition slicer_24k : result Slicer := __init__ 24000 (-40) 20000 300 20 2000.

(** [Slicer(1000, -40, 8, 2, 2, 2)]: two samples per frame, a window of one
    hop, segments of at least four frames, silences of at least one. *)
Definition small : Slicer :=
  {| threshold := 1 # 100; hop_size := 2; win_size := 2;
     min_length := 4; min_interval := 1; max_sil_kept := 1 |}.

(** [Slicer(1000, -40, 8, 4, 2, 4)]: a window of two hops and up to two
    frames of silence kept. *)
Definition wide : Slicer :=
  {| threshold := 1 # 100; hop_size := 2; win_size := 4;
     min_length := 4; min_interval := 2; max_sil_kept := 2 |}.

End Rational.

(** ** Vocabulary of the properties *)

Section Vocabulary.

Context `{Num : Numeric}.
Implicit Types (L : list energy) (e m : energy).

(** [p] is the first frame of least energy among the frames [a .. b) of [L]:
    no frame of the range is lower, every earlier frame of the range is
    strictly higher. *)
Definition first_min L (a b p : Z) : Prop :=
  a <= p < b /\
  exists m, item L p = Some m /\
    (forall j e, a <= j < b -> item L j = Some e -> lt e m = false) /\
    (forall j e, a <= j < p -> item L j = Some e -> lt m e = true).

(** The ranges [ts] lie in order inside [l .. b): each one is a proper range
    [lo <= hi], the next one starts strictly after the previous one ends, and
    the last one ends strictly before [b]. *)
Fixpoint chain (l : Z) (ts : list tag) (b : Z) : Prop :=
  match ts with
  | [] => l <= b
  | (lo, hi) :: rest => l <= lo /\ lo <= hi /\ chain (hi + 1) rest b
  end.

(** What holds of the loop variables on entry to iteration [i]: the recorded
    ranges are in order and end before the open silence run (before [i] when
    no run is open), and an open run is silent all the way up to [i]. *)
Definition scan_inv (self : Slicer) L (i : Z) (st : scan_state) : Prop :=
  match silence_start st with
  | Some s =>
      0 <= s < i /\ chain 0 (sil_tags st) s /\
      (forall j e, s <= j < i -> item L j = Some e -> lt e (threshold self) = true)
  | None => chain 0 (sil_tags st) i
  end.

Definition is_chunk (x : slice_item) : Prop :=
  match x with
  | Chunk _ _ _ => True
  | Bare _ => False
  end.

(** The reported sample range of a returned element. *)
Definition span (x : slice_item) : option (Z * Z) :=
  match x with
  | Chunk _ start end_ => Some (start, end_)
  | Bare _ => None
  end.

(** The reported sample ranges lie in order inside [l .. u]: each is
    non-empty and starts no earlier than the previous one ends. *)
Fixpoint ordered (l : Z) (xs : list slice_item) (u : Z) : Prop :=
  match xs with
  | [] => l <= u
  | Chunk _ start end_ :: rest => l <= start /\ start < end_ /\ ordered end_ rest u
  | Bare _ :: rest => False
  end.

(** The shape of [sil_tags] once the trailing silence has been dealt with:
    ordered ranges, the last of which starts at a frame of the envelope (its
    end may be the mark [total_frames + 1]). *)
Definition closed_tags (total_frames : Z) (ts : list tag) : Prop :=
  ts = [] \/
  exists init lo hi,
    ts = init ++ [(lo, hi)] /\ chain 0 init lo /\ lo <= hi /\ lo < total_frames.

End Vocabulary.

(** ** Accounting for the samples *)

Section Accounting.

Context `{Num : Numeric}.

(** [waveform.shape[-1]], the number of samples per channel. *)
Definition num_samples (w : waveform) : Z :=
  match w with
  | Mono y => len y
  | Multi channels => shape1 channels
  end.

(** Every channel of a two-dimensional buffer has the same length. *)
Definition rectangular (w : waveform) : Prop :=
  match w with
  | Mono _ => True
  | Multi channels => forall c, In c channels -> len c = shape1 channels
  end.

(** The samples the returned chunks report, [end - start] summed. *)
Fixpoint reported_length (xs : list slice_item) : Z :=
  match xs with
  | [] => 0
  | Chunk _ start end_ :: rest => (end_ - start) + reported_length rest
  | Bare _ :: rest => reported_length rest
  end.

(** The frames of the ranges in [sil_tags], a range that runs past the
    envelope counted up to its end only. *)
Fixpoint removed_frames (total_frames : Z) (ts : list tag) : Z :=
  match ts with
  | [] => 0
  | (lo, hi) :: rest => (Z.min hi total_frames - lo) + removed_frames total_frames rest
  end.

(** What [for chunk, start, end in list_slicer] binds on one element of the
    list: the three entries of a [[chunk, start, end]] list, or, on a bare
    one-dimensional waveform, its samples when there are exactly three of
    them (its rows, for a two-dimensional one). *)
Inductive unpacked : Type :=
| Entries (chunk : waveform) (start end_ : Z)
| Samples (chunk start end_ : sample)
| Rows (chunk start end_ : list sample).

Definition unpack (x : slice_item) : result unpacked :=
  match x with
  | Chunk chunk start end_ => Ok (Entries chunk start end_)
  | Bare (Mono [a; b; c]) => Ok (Samples a b c)
  | Bare (Multi [a; b; c]) => Ok (Rows a b c)
  | Bare (Mono (_ :: _ :: _ :: _ :: _)) | Bare (Multi (_ :: _ :: _ :: _ :: _)) =>
      Raise (ValueError "too many values to unpack (expected 3)")
  | Bare _ =>
      Raise (ValueError "not enough values to unpack")
  end.

(** The elements of [list_slicer] as the loop of [transcribe_all] receives
    them, up to the first one that cannot be unpacked. *)
Fixpoint unpack_all (xs : list slice_item) : result (list unpacked) :=
  match xs with
  | [] => Ok []
  | x :: rest =>
      u <- unpack x ;;
      us <- unpack_all rest ;;
      Ok (u :: us)
  end.

End Accounting.

(** * The text side of the file

    File names, transcripts and vocabularies are Python strings: sequences
    of code points, kept here as lists of their numbers. *)

Definition str : Type := list N.

(** A string literal of the source. *)
Definition lit (s : string) : str := map Ascii.N_of_ascii (list_ascii_of_string s).

Module PyStr.

(** [a == b] *)
Fixpoint eqb (a b : str) : bool :=
  match a, b with
  | [], [] => true
  | x :: a', y :: b' => (x =? y)%N && eqb a' b'
  | _, _ => false
  end.

(** [s.startswith(prefix)] *)
Fixpoint startswith (s prefix : str) : bool :=
  match prefix, s with
  | [], _ => true
  | p :: prefix', c :: s' => (c =? p)%N && startswith s' prefix'
  | _ :: _, [] => false
  end.

(** [s.endswith(suffix)] *)
Definition endswith (s suffix : str) : bool :=
  startswith (rev s) (rev suffix).

(** [s.split(sep)] for a separator of one code point: one piece more than
    there are separators, the empty string giving one empty piece. *)
Fixpoint split (s : str) (sep : N) : list str :=
  match s with
  | [] => [[]]
  | c :: s' =>
      if (c =? sep)%N then [] :: split s' sep
      else match split s' sep with
           | piece :: pieces => (c :: piece) :: pieces
           | [] => [[c]]
           end
  end.

(** [sep.join(pieces)] *)
Fixpoint join (sep : str) (pieces : list str) : str :=
  match pieces with
  | [] => []
  | [piece] => piece
  | piece :: rest => piece ++ sep ++ join sep rest
  end.

(** [s.replace(c, "")] for a string [c] of one code point. *)
Definition remove (s : str) (c : N) : str :=
  filter (fun x => negb (x =? c)%N) s.

Fixpoint lstrip (isspace : N -> bool) (s : str) : str :=
  match s with
  | c :: s' => if isspace c then lstrip isspace s' else s
  | [] => []
  end.

(** [s.strip()], [isspace] telling the white space apart. *)
Definition strip (isspace : N -> bool) (s : str) : str :=
  rev (lstrip isspace (rev (lstrip isspace s))).

(** [x in xs] for a list or a set of strings. *)
Definition mem (x : str) (xs : list str) : bool := existsb (eqb x) xs.

Fixpoint digits (u : Decimal.uint) : str :=
  match u with
  | Decimal.Nil => []
  | Decimal.D0 u => 48%N :: digits u
  | Decimal.D1 u => 49%N :: digits u
  | Decimal.D2 u => 50%N :: digits u
  | Decimal.D3 u => 51%N :: digits u
  | Decimal.D4 u => 52%N :: digits u
  | Decimal.D5 u => 53%N :: digits u
  | Decimal.D6 u => 54%N :: digits u
  | Decimal.D7 u => 55%N :: digits u
  | Decimal.D8 u => 56%N :: digits u
  | Decimal.D9 u => 57%N :: digits u
  end.

(** [str(n)] and [f"{n}"] for an integer that is not negative. *)
Definition of_nat (n : nat) : str := digits (Nat.to_uint n).

(** ["{:02d}".format(n)]: at least two characters, a zero put before a
    single digit. *)
Definition format_02d (n : Z) : str :=
  if n <? 0 then lit "-" ++ digits (N.to_uint (Z.abs_N n))
  else if n <? 10 then lit "0" ++ digits (N.to_uint (Z.to_N n))
  else digits (N.to_uint (Z.to_N n)).

(** [int(x)] on a float: the fraction is dropped. *)
Definition int (x : Q) : Z :=
  if Qle_bool 0 x then Qfloor x else Qceiling x.

(** [x % m] on a float, for a positive [m]: the result lies in [0 .. m). *)
Definition mod_ (x : Q) (m : Z) : Q :=
  (x - inject_Z m * inject_Z (Qfloor (x / inject_Z m)))%Q.

End PyStr.

(** ** [format_seconds_to_hms]

    A duration is an exact rational here: the rounding of the two
    floating-point divisions is not modelled. *)

Definition hours_minutes_seconds (seconds : Q) : Z * Z * Q :=
  let hours := PyStr.int (seconds / 3600) in
  let minutes := PyStr.int (PyStr.mod_ seconds 3600 / 60) in
  let seconds := PyStr.mod_ seconds 60 in
  (hours, minutes, seconds).

Definition format_seconds_to_hms (seconds : Q) : str :=
  let '(hours, minutes, seconds) := hours_minutes_seconds seconds in
  PyStr.format_02d hours ++ lit ":" ++ PyStr.format_02d minutes ++ lit ":"
  ++ PyStr.format_02d (PyStr.int seconds).

(** ** [get_correct_audio_path]

    [os.path] is the POSIX one; whether a file exists is asked of the file
    system, [exists_]. *)

Module OsPath.

(** [os.path.isabs(p)] *)
Definition isabs (p : str) : bool := PyStr.startswith p (lit "/").

(** [os.path.join(a, b)] *)
Definition join (a b : str) : str :=
  if PyStr.startswith b (lit "/") then b
  else if match a with [] => true | _ => PyStr.endswith a (lit "/") end
       then a ++ b
       else a ++ lit "/" ++ b.

End OsPath.

(** What a function of this part ends in: a value, or one of the exceptions
    nothing in the file catches. *)
Inductive pyerror : Type :=
| IndexError
| TypeError
| UnboundLocalError.

Inductive outcome (A : Type) : Type :=
| Returned (a : A)
| Raised (e : pyerror).

Arguments Returned {A} a.
Arguments Raised {A} e.

Definition and_then {A B : Type} (m : outcome A) (k : A -> outcome B) : outcome B :=
  match m with
  | Returned a => k a
  | Raised e => Raised e
  end.

Definition supported_formats : list str :=
  map lit ["wav"; "mp3"; "aac"; "flac"; "m4a"; "alac"; "ogg"; "aiff"; "wma"; "amr"]%string.

Section AudioPath.

Variable exists_ : str -> bool.

Definition has_supported_extension (supported_formats : list str)
    (file_name : str) : bool :=
  existsb (fun ext => PyStr.endswith file_name (lit "." ++ ext)) supported_formats.

(** The [for ... else] over the formats: the first candidate that exists, or
    the candidate of the first format when none does. *)
Fixpoint first_existing (audio_input base_path : str) (first : option str)
    (formats : list str) : outcome str :=
  match formats with
  | ext :: rest =>
      let potential_file := OsPath.join base_path (audio_input ++ lit "." ++ ext) in
      if exists_ potential_file then Returned potential_file
      else first_existing audio_input base_path first rest
  | [] =>
      match first with
      | Some ext => Returned (OsPath.join base_path (audio_input ++ lit "." ++ ext))
      | None => Raised IndexError
      end
  end.

(** The result is [None] when no case applies. *)
Definition get_correct_audio_path (audio_input base_path : str)
    (supported_formats : list str) : outcome (option str) :=
  if OsPath.isabs audio_input
     && has_supported_extension supported_formats audio_input
  then Returned (Some audio_input)
  else if has_supported_extension supported_formats audio_input
          && negb (OsPath.isabs audio_input)
  then Returned (Some (OsPath.join base_path audio_input))
  else if negb (has_supported_extension supported_formats audio_input)
          && negb (OsPath.isabs audio_input)
  then and_then (first_existing audio_input base_path
                   (hd_error supported_formats) supported_formats)
                (fun file_audio => Returned (Some file_audio))
  else Returned None.

End AudioPath.

(** ** The metadata file *)

Definition newline : N := 10.
Definition pipe : N := 124.
Definition comma : N := 44.
Definition space : N := 32.

(** The lines of [metadata.csv] that have two fields, as each loop
    [for line in data.split("\n")] of the file, which skips a line when
    [len(line.split("|")) != 2], goes through them. *)
Definition row_of (line : str) : list (str * str) :=
  match PyStr.split line pipe with
  | [name_audio; text] => [(name_audio, text)]
  | _ => []
  end.

Definition metadata_rows (data : str) : list (str * str) :=
  flat_map row_of (PyStr.split data newline).

(** The sum of a list of durations. *)
Definition total (durations : list Q) : Q := fold_right Qplus 0%Q durations.

(** *** What [transcribe_all] writes *)

Section Transcribe.

Variable isspace : N -> bool.





End Transcribe.

(** *** The loop of [create_metadata] *)

Section CreateMetadata.

(** [os.path.exists], [os.path.isfile], [get_audio_duration] ([None] when it
    raises) and [convert_char_to_pinyin([text], polyphone=True)[0]], the list
    of the tokens of [text], each a string of its own.  Durations are exact
    rationals: the rounding of the running sum [lenght] is not modelled. *)
Variable exists_ : str -> bool.
Variable isfile : str -> bool.
Variable get_audio_duration : str -> option Q.
Variable convert_char_to_pinyin : str -> list str.
Variable isspace : N -> bool.

Record prepared : Type := {
  audio_path_list : list str;
  text_list : list (list str);
  duration_list : list Q;
  result_ : list (str * list str * Q);
  error_files : list (str * str);
  text_vocab_set : list str;
  lenght : Q
}.

Definition nothing_prepared : prepared :=
  {| audio_path_list := []; text_list := []; duration_list := []; result_ := [];
     error_files := []; text_vocab_set := []; lenght := 0 |}.

Definition add_error (st : prepared) (file_audio : str) (why : string) : prepared :=
  {| audio_path_list := audio_path_list st;
     text_list := text_list st;
     duration_list := duration_list st;
     result_ := result_ st;
     error_files := error_files st ++ [(file_audio, lit why)];
     text_vocab_set := text_vocab_set st;
     lenght := lenght st |}.

Definition Qltb (a b : Q) : bool := negb (Qle_bool b a).

(** The body of the loop for one line. *)
Definition create_metadata_line (ch_tokenizer : bool) (path_project_wavs : str)
    (st : prepared) (line : str) : outcome prepared :=
  match PyStr.split line pipe with
  | [name_audio; text] =>
      and_then
        (get_correct_audio_path exists_ name_audio path_project_wavs supported_formats)
        (fun file_audio =>
           match file_audio with
           | None => Raised TypeError
           | Some file_audio =>
               if negb (isfile file_audio)
               then Returned (add_error st file_audio "error path")
               else
                 match get_audio_duration file_audio with
                 | None => Returned (add_error st file_audio "duration")
                 | Some duration =>
                     if Qltb duration 1 || Qltb 30 duration then
                       let st := if Qltb 30 duration
                                 then add_error st file_audio "duration > 30 sec"
                                 else st in
                       let st := if Qltb duration 1
                                 then add_error st file_audio "duration < 1 sec "
                                 else st in
                       Returned st
                     else if (len text <? 3)%Z
                     then Returned (add_error st file_audio "very short text length 3")
                     else
                       let text := PyStr.strip isspace text in
                       let text := convert_char_to_pinyin text in
                       Returned
                         {| audio_path_list := audio_path_list st ++ [file_audio];
                            text_list := text_list st ++ [text];
                            duration_list := duration_list st ++ [duration];
                            result_ := result_ st ++ [(file_audio, text, duration)];
                            error_files := error_files st;
                            text_vocab_set :=
                              if ch_tokenizer
                              then nodup (list_eq_dec N.eq_dec) (text_vocab_set st ++ text)
                              else text_vocab_set st;
                            lenght := (lenght st + duration)%Q |}
                 end
           end)
  | _ => Returned st
  end.

Fixpoint create_metadata_lines (ch_tokenizer : bool) (path_project_wavs : str)
    (st : prepared) (lines : list str) : outcome prepared :=
  match lines with
  | [] => Returned st
  | line :: rest =>
      and_then (create_metadata_line ch_tokenizer path_project_wavs st line)
               (fun st' => create_metadata_lines ch_tokenizer path_project_wavs st' rest)
  end.

(** The lists [create_metadata] has gathered when its loop over the lines of
    the metadata file ends. *)
Definition create_metadata_scan (ch_tokenizer : bool) (path_project_wavs : str)
    (data : str) : outcome prepared :=
  create_metadata_lines ch_tokenizer path_project_wavs nothing_prepared
    (PyStr.split data newline).

End CreateMetadata.

(** What the loop keeps true of the lists it gathers: they go together
    entry by entry, every kept duration lies between 1 and 30 seconds, and
    [lenght] is their sum. *)
Definition prepared_ok (st : prepared) : Prop :=
  List.length (audio_path_list st) = List.length (text_list st) /\
  List.length (duration_list st) = List.length (text_list st) /\
  List.length (result_ st) = List.length (text_list st) /\
  (forall d, In d (duration_list st) -> (1 <= d)%Q /\ (d <= 30)%Q) /\
  (lenght st == total (duration_list st))%Q.

(** A row that names an absolute path without a supported extension. *)
Definition unresolvable (row : str * str) : Prop :=
  OsPath.isabs (fst row) = true /\
  has_supported_extension supported_formats (fst row) = false.

(** ** The vocabulary *)

(** [vocab_count] *)
Definition vocab_count (text : str) : str :=
  PyStr.of_nat (List.length (PyStr.split text comma)).

(** [expand_model_embeddings], on the number of rows of the embedding: the
    old rows are kept and [num_new_tokens] rows are added. *)
Definition expand_model_embeddings (vocab_old num_new_tokens : nat) : nat :=
  vocab_old + num_new_tokens.

Section Vocab.

Variable convert_char_to_pinyin : str -> list str.
Variable isspace : N -> bool.

(** The symbols of [symbols] that the vocabulary lacks, spaces removed. *)
Fixpoint miss_symbols_of (vocab_check : list str) (symbols : list str) : list str :=
  match symbols with
  | [] => []
  | item :: rest =>
      let item := PyStr.remove item space in
      if PyStr.mem item vocab_check then miss_symbols_of vocab_check rest
      else item :: miss_symbols_of vocab_check rest
  end.

(** What a call of [vocab_extend] leaves: the text written to the vocabulary
    of the project, if it got that far, and the message returned or the
    exception raised. *)
Record extension : Type := {
  written : option str;
  answer : outcome str
}.

(** [file_vocab] is the path of the pretrained vocabulary and [vocab_file]
    its text, [None] when there is no such file; [vocab_old] is the number
    of rows of the embedding of the checkpoint that belongs to
    [model_type], [None] when [model_type] is none of the three known
    ones. *)
Definition vocab_extend (file_vocab : str) (vocab_file : option str)
    (vocab_old : option nat) (symbols : str) : extension :=
  if PyStr.eqb symbols [] then
    {| written := None; answer := Returned (lit "Symbols empty!") |}
  else
    match vocab_file with
    | None =>
        {| written := None;
           answer := Returned (lit "the file " ++ file_vocab ++ lit " not found !") |}
    | Some data =>
        let symbols := PyStr.split symbols comma in
        match symbols with
        | [] =>
            {| written := None;
               answer := Returned (lit "Symbols to extend not found.") |}
        | _ =>
            let vocab := PyStr.split data newline in
            let miss_symbols := miss_symbols_of vocab symbols in
            match miss_symbols with
            | [] =>
                {| written := None;
                   answer := Returned (lit "Symbols are okay no need to extend.") |}
            | _ =>
                let size_vocab := List.length vocab in
                let vocab := removelast vocab ++ miss_symbols ++ [[]] in
                let text := PyStr.join [newline] vocab in
                let vocab_size_new := List.length miss_symbols in
                {| written := Some text;
                   answer :=
                     match vocab_old with
                     | None => Raised UnboundLocalError
                     | Some vocab_old =>
                         let size := expand_model_embeddings vocab_old vocab_size_new in
                         Returned
                           (lit "vocab old size : " ++ PyStr.of_nat size_vocab
                            ++ [newline] ++ lit "vocab new size : " ++ PyStr.of_nat size
                            ++ [newline] ++ lit "vocab add : "
                            ++ PyStr.of_nat vocab_size_new
                            ++ [newline] ++ lit "new symbols :" ++ [newline]
                            ++ PyStr.join [newline] miss_symbols)
                     end |}
            end
        end
    end.

(** The inner loop of [vocab_check], [for t in text]: [text] is given by
    what the loop goes through, the tokens of a converted text or the
    characters of a plain one. *)
Fixpoint miss_in_text (vocab : list str) (miss_symbols : list str) (text : list str)
    : list str :=
  match text with
  | [] => miss_symbols
  | t :: rest =>
      if negb (PyStr.mem t vocab) && negb (PyStr.mem t miss_symbols)
      then miss_in_text vocab (miss_symbols ++ [t]) rest
      else miss_in_text vocab miss_symbols rest
  end.

(** The characters of a string, as iterating over it gives them. *)
Definition characters (text : str) : list str := map (fun c => [c]) text.

(** The text of one row as [vocab_check] reads it. *)
Definition checked_text (tokenizer_type : str) (text : str) : list str :=
  let text := PyStr.strip isspace text in
  if PyStr.eqb tokenizer_type (lit "pinyin") then convert_char_to_pinyin text
  else characters text.

Definition miss_in_rows (tokenizer_type : str) (vocab : list str)
    (rows : list (str * str)) : list str :=
  fold_left (fun miss_symbols row =>
               miss_in_text vocab miss_symbols (checked_text tokenizer_type (snd row)))
            rows [].

Definition vocab_check (file_vocab file_metadata : str)
    (vocab_file metadata_file : option str) (tokenizer_type : str) : str * str :=
  match vocab_file with
  | None => (lit "the file " ++ file_vocab ++ lit " not found !", [])
  | Some data =>
      let vocab := PyStr.split data newline in
      match metadata_file with
      | None => (lit "the file " ++ file_metadata ++ lit " not found !", [])
      | Some data =>
          let miss_symbols := miss_in_rows tokenizer_type vocab (metadata_rows data) in
          match miss_symbols with
          | [] => (lit "You can train using your language !", [])
          | _ =>
              (lit "The following " ++ PyStr.of_nat (List.length miss_symbols)
               ++ lit " symbols are missing in your language" ++ [newline; newline],
               PyStr.join [comma] miss_symbols)
          end
      end
  end.

End Vocab.

(** * Properties *)

(** ** Slices and indexing *)

Section ListFacts.

Context {A : Type}.
Implicit Types l : list A.

Lemma len_nonneg l : 0 <= len l.
Proof. unfold len; lia. Qed.

Lemma len_app l l' : len (l ++ l') = len l + len l'.
Proof. unfold len; rewrite length_app; lia. Qed.

Lemma item_Some_lt l k x : item l k = Some x -> 0 <= k < len l.
Proof.
  unfold item, len; destruct (Z.ltb_spec k 0) as [|Hk]; [discriminate|].
  intros E.
  assert (nth_error l (Z.to_nat k) <> None) as N by congruence.
  apply nth_error_Some in N; lia.
Qed.

Lemma item_lt_Some l k : 0 <= k < len l -> exists x, item l k = Some x.
Proof.
  unfold item, len; intros [H0 H1].
  destruct (Z.ltb_spec k 0); [lia|].
  destruct (nth_error l (Z.to_nat k)) eqn:E; [eauto|].
  apply nth_error_None in E; lia.
Qed.

Lemma norm_bound_nonneg n k : 0 <= k -> norm_bound n k = Z.min n k.
Proof. unfold norm_bound; destruct (Z.ltb_spec k 0); lia. Qed.

Lemma len_py_slice l a b :
  0 <= a -> 0 <= b ->
  len (py_slice l a b) = Z.max 0 (Z.min (len l) b - Z.min (len l) a).
Proof.
  intros Ha Hb; unfold py_slice.
  rewrite !norm_bound_nonneg by assumption.
  pose proof (len_nonneg l) as Hl.
  unfold len in *; rewrite length_firstn, length_skipn; lia.
Qed.

Lemma item_py_slice l a b k :
  0 <= a -> 0 <= k -> a + k < b ->
  item (py_slice l a b) k = item l (a + k).
Proof.
  intros Ha Hk Hb.
  pose proof (len_nonneg l) as Hl.
  unfold py_slice, item.
  rewrite !norm_bound_nonneg by lia.
  destruct (Z.ltb_spec k 0); [lia|].
  destruct (Z.ltb_spec (a + k) 0); [lia|].
  rewrite nth_error_firstn, nth_error_skipn.
  destruct (Z.le_gt_cases (len l) (a + k)) as [Hout|Hin].
  - assert (nth_error l (Z.to_nat (a + k)) = None) as ->
      by (apply nth_error_None; unfold len in *; lia).
    destruct (Nat.ltb _ _); [|reflexivity].
    apply nth_error_None; unfold len in *; lia.
  - replace (Z.to_nat (Z.min (len l) a) + Z.to_nat k)%nat
      with (Z.to_nat (a + k)) by lia.
    destruct (Nat.ltb_spec (Z.to_nat k)
                (Z.to_nat (Z.min (len l) b - Z.min (len l) a))); [reflexivity|lia].
Qed.

Lemma item_skipn_cons l k x t :
  0 <= k -> skipn (Z.to_nat k) l = x :: t ->
  item l k = Some x /\ skipn (Z.to_nat (k + 1)) l = t.
Proof.
  intros Hk E; unfold item.
  destruct (Z.ltb_spec k 0); [lia|].
  replace (Z.to_nat (k + 1)) with (S (Z.to_nat k)) by lia.
  generalize dependent l.
  induction (Z.to_nat k) as [|n IH]; intros l E.
  - destruct l; inversion E; subst; auto.
  - destruct l; [discriminate|]. simpl in E. apply IH in E. exact E.
Qed.

Lemma skipn_nil_len l k : 0 <= k -> skipn (Z.to_nat k) l = [] -> len l <= k.
Proof.
  intros Hk E. apply skipn_all_iff in E. unfold len; lia.
Qed.

End ListFacts.

(** ** The minimum-energy search *)

Section ArgminFacts.

Context `{Num : Numeric}.
Implicit Types (L S : list energy) (e m : energy).

Lemma argmin_from_range t : forall bi b i,
  argmin_from bi b i t = bi \/ i <= argmin_from bi b i t < i + len t.
Proof.
  induction t as [|x t IH]; intros bi b i; simpl; [auto|].
  assert (len (x :: t) = len t + 1) as -> by (unfold len; cbn [List.length]; lia).
  pose proof (len_nonneg t).
  destruct (lt x b).
  - destruct (IH i x (i + 1)); lia.
  - destruct (IH bi b (i + 1)); lia.
Qed.

Lemma lt_irrefl (Ord : EnergyOrder) e : lt e e = false.
Proof.
  destruct (lt e e) eqn:E; [|reflexivity].
  pose proof (lt_asym Ord e e E); congruence.
Qed.

Lemma argmin_from_first (Ord : EnergyOrder) S : forall t bi b i,
  0 <= bi < i ->
  skipn (Z.to_nat i) S = t ->
  item S bi = Some b ->
  (forall j e, 0 <= j < bi -> item S j = Some e -> lt b e = true) ->
  (forall j e, bi <= j < i -> item S j = Some e -> lt e b = false) ->
  exists m, item S (argmin_from bi b i t) = Some m /\
    (forall j e, 0 <= j < argmin_from bi b i t -> item S j = Some e -> lt m e = true) /\
    (forall j e, argmin_from bi b i t <= j -> item S j = Some e -> lt e m = false).
Proof.
  induction t as [|x t IH]; intros bi b i Hbi Hskip Hb Hlo Hhi; simpl.
  - exists b; split; [exact Hb|]; split; [exact Hlo|].
    intros j e Hj He. apply (Hhi j); [|exact He].
    apply skipn_nil_len in Hskip; [|lia].
    apply item_Some_lt in He; lia.
  - apply item_skipn_cons in Hskip as [Hx Hskip]; [|lia].
    destruct (lt x b) eqn:Hxb.
    + apply IH; [lia|exact Hskip|exact Hx| |].
      * intros j e Hj He.
        apply (lt_below Ord) with (b := b); [exact Hxb|].
        destruct (Z.lt_ge_cases j bi).
        -- apply (lt_asym Ord). apply (Hlo j); [lia|exact He].
        -- apply (Hhi j); [lia|exact He].
      * intros j e Hj He.
        assert (j = i) as -> by lia.
        rewrite Hx in He; inversion He; subst. apply lt_irrefl; exact Ord.
    + apply IH; [lia|exact Hskip|exact Hb|exact Hlo|].
      intros j e Hj He.
      destruct (Z.eq_dec j i) as [->|].
      * rewrite Hx in He; inversion He; subst; exact Hxb.
      * apply (Hhi j); [lia|exact He].
Qed.

Lemma argmin_range S k : argmin S = Ok k -> 0 <= k < len S.
Proof.
  destruct S as [|x t]; simpl; [discriminate|].
  intros E; inversion E; subst; clear E.
  assert (len (x :: t) = len t + 1) as -> by (unfold len; cbn [List.length]; lia).
  pose proof (len_nonneg t).
  destruct (argmin_from_range t 0 x 1); lia.
Qed.

Lemma argmin_nonempty S : S <> [] -> exists k, argmin S = Ok k.
Proof. destruct S; [congruence|simpl; eauto]. Qed.

Lemma argmin_first (Ord : EnergyOrder) S k :
  argmin S = Ok k ->
  exists m, item S k = Some m /\
    (forall j e, 0 <= j < k -> item S j = Some e -> lt m e = true) /\
    (forall j e, k <= j -> item S j = Some e -> lt e m = false).
Proof.
  destruct S as [|x t]; simpl; [discriminate|].
  intros E; inversion E; subst; clear E.
  apply argmin_from_first; [exact Ord|lia|reflexivity|reflexivity| |].
  - intros; lia.
  - intros j e Hj He. assert (j = 0) as -> by lia.
    cbn in He. inversion He; subst. apply lt_irrefl; exact Ord.
Qed.

(** Every search of the scan is over a range that starts at a frame of the
    envelope, and so it succeeds and answers inside the range. *)
Lemma min_pos_bounds L a b :
  0 <= a < b -> a < len L ->
  exists p, min_pos L a b = Ok p /\ a <= p < b /\ p < len L.
Proof.
  intros Hab Hlen. unfold min_pos.
  assert (0 < len (py_slice L a b)) as Hpos
    by (rewrite len_py_slice by lia; lia).
  destruct (argmin_nonempty (py_slice L a b)) as [k Hk].
  { intros E; rewrite E in Hpos; cbn in Hpos; lia. }
  rewrite Hk; simpl. exists (k + a); split; [reflexivity|].
  apply argmin_range in Hk. rewrite len_py_slice in Hk by lia. lia.
Qed.

Lemma min_pos_range L a b p :
  0 <= a -> 0 <= b -> min_pos L a b = Ok p -> a <= p < b /\ p < len L.
Proof.
  intros Ha Hb. unfold min_pos.
  destruct (argmin (py_slice L a b)) as [k|] eqn:Hk; simpl; [|discriminate].
  intros E; inversion E; subst; clear E.
  apply argmin_range in Hk. rewrite len_py_slice in Hk by lia. lia.
Qed.

Lemma min_pos_first_min (Ord : EnergyOrder) L a b p :
  0 <= a -> 0 <= b -> min_pos L a b = Ok p -> first_min L a b p.
Proof.
  intros Ha Hb Hp.
  destruct (min_pos_range L a b p Ha Hb Hp) as [Hr Hl].
  split; [exact Hr|].
  unfold min_pos in Hp.
  destruct (argmin (py_slice L a b)) as [k|] eqn:Hk; simpl in Hp; [|discriminate].
  inversion Hp; subst; clear Hp.
  pose proof (argmin_range _ _ Hk) as Hkr.
  destruct (argmin_first Ord _ _ Hk) as (m & Hm & Hbefore & Hafter).
  exists m. rewrite item_py_slice in Hm by lia.
  split; [rewrite Z.add_comm; exact Hm|]. split.
  - intros j e Hj He.
    destruct (Z.lt_ge_cases j (k + a)).
    + apply (lt_asym Ord). apply (Hbefore (j - a)); [lia|].
      rewrite item_py_slice by lia. replace (a + (j - a)) with j by lia. exact He.
    + apply (Hafter (j - a)); [lia|].
      rewrite item_py_slice by lia. replace (a + (j - a)) with j by lia. exact He.
  - intros j e Hj He.
    apply (Hbefore (j - a)); [lia|].
    rewrite item_py_slice by lia. replace (a + (j - a)) with j by lia. exact He.
Qed.

End ArgminFacts.

(** ** Ordered ranges *)

Lemma chain_le l ts b : chain l ts b -> l <= b.
Proof.
  revert l; induction ts as [|[lo hi] ts IH]; simpl; intros l H; [exact H|].
  destruct H as (H1 & H2 & H3). apply IH in H3. lia.
Qed.

Lemma chain_weaken l ts b b' : chain l ts b -> b <= b' -> chain l ts b'.
Proof.
  revert l; induction ts as [|[lo hi] ts IH]; simpl; intros l H Hb; [lia|].
  destruct H as (H1 & H2 & H3). auto.
Qed.

Lemma chain_snoc l ts a lo hi b :
  chain l ts a -> a <= lo -> lo <= hi -> hi < b ->
  chain l (ts ++ [(lo, hi)]) b.
Proof.
  revert l; induction ts as [|[lo' hi'] ts IH]; simpl; intros l H Ha Hlo Hhi.
  - lia.
  - destruct H as (H1 & H2 & H3). auto.
Qed.

Lemma chain_snoc_inv l ts lo hi b :
  chain l (ts ++ [(lo, hi)]) b -> chain l ts lo /\ lo <= hi < b.
Proof.
  revert l; induction ts as [|[lo' hi'] ts IH]; simpl; intros l H.
  - lia.
  - destruct H as (H1 & H2 & H3). apply IH in H3. tauto.
Qed.

Lemma chain_empty_range l ts : chain l ts l -> ts = [].
Proof.
  destruct ts as [|[lo hi] ts]; simpl; [reflexivity|].
  intros (H1 & H2 & H3). apply chain_le in H3. lia.
Qed.

(** ** The loop invariant *)

Section ScanFacts.

Context `{Num : Numeric}.
Variable self : Slicer.
Hypothesis kept_nonneg : 0 <= max_sil_kept self.
Implicit Types (L : list energy) (st : scan_state).

(** Once a run is accepted, exactly one range is recorded; it lies inside
    the run, starts at frame 0 for a run that starts there, and its end
    becomes [clip_start]. *)
Lemma record_range_ok L st s i :
  0 <= s < i -> i < len L ->
  exists lo hi,
    record_range self L st s i =
      Ok {| silence_start := None; clip_start := hi;
            sil_tags := sil_tags st ++ [(lo, hi)] |} /\
    s <= lo /\ lo <= hi /\ hi <= i /\ (s = 0 -> lo = 0).
Proof.
  intros Hs Hi. unfold record_range.
  set (k := max_sil_kept self) in *.
  destruct (Z.leb_spec (i - s) k) as [Ha|Ha].
  - destruct (min_pos_bounds L s (i + 1)) as (p & -> & Hp & _); [lia|lia|].
    cbn [bind]. destruct (Z.eqb_spec s 0) as [->|Hs0].
    + exists 0, p. repeat split; lia.
    + exists p, p. repeat split; lia.
  - destruct (Z.leb_spec (i - s) (k * 2)) as [Hb|Hb].
    + destruct (min_pos_bounds L (i - k) (s + k + 1)) as (p & -> & Hp & _); [lia|lia|].
      destruct (min_pos_bounds L s (s + k + 1)) as (pl & -> & Hpl & _); [lia|lia|].
      destruct (min_pos_bounds L (i - k) (i + 1)) as (pr & -> & Hpr & _); [lia|lia|].
      cbn [bind]. destruct (Z.eqb_spec s 0) as [->|Hs0].
      * exists 0, pr. repeat split; lia.
      * exists (Z.min pl p), (Z.max pr p). repeat split; lia.
    + destruct (min_pos_bounds L s (s + k + 1)) as (pl & -> & Hpl & _); [lia|lia|].
      destruct (min_pos_bounds L (i - k) (i + 1)) as (pr & -> & Hpr & _); [lia|lia|].
      cbn [bind]. destruct (Z.eqb_spec s 0) as [->|Hs0].
      * exists 0, pr. repeat split; lia.
      * exists pl, pr. repeat split; lia.
Qed.

Lemma scan_step_inv L st i x :
  0 <= i < len L -> item L i = Some x ->
  scan_inv self L i st ->
  exists st', scan_step self L st i x = Ok st' /\ scan_inv self L (i + 1) st'.
Proof.
  intros Hi Hx Inv. unfold scan_step, scan_inv in *.
  destruct (lt x (threshold self)) eqn:Hsil.
  - destruct (silence_start st) as [s|] eqn:Hs.
    + exists st. rewrite Hs. split; [reflexivity|].
      destruct Inv as (H1 & H2 & H3). repeat split; [lia|lia|exact H2|].
      intros j e Hj He. destruct (Z.eq_dec j i) as [->|].
      * rewrite Hx in He; inversion He; subst; exact Hsil.
      * apply (H3 j); [lia|exact He].
    + eexists; split; [reflexivity|]. cbn. repeat split; [lia|lia|exact Inv|].
      intros j e Hj He. assert (j = i) as -> by lia.
      rewrite Hx in He; inversion He; subst; exact Hsil.
  - destruct (silence_start st) as [s|] eqn:Hs.
    + destruct Inv as (H1 & H2 & H3).
      destruct (negb (is_leading_silence self s i)
                && negb (need_slice_middle self s (clip_start st) i)).
      * eexists; split; [reflexivity|]. cbn.
        apply chain_weaken with (b := s); [exact H2|lia].
      * destruct (record_range_ok L st s i) as (lo & hi & -> & Hr); [lia|lia|].
        eexists; split; [reflexivity|]. cbn.
        apply chain_snoc with (a := s); [exact H2|lia|lia|lia].
    + exists st. rewrite Hs. split; [reflexivity|].
      apply chain_weaken with (b := i); [exact Inv|lia].
Qed.

Lemma scan_from_inv L : forall rest i st,
  0 <= i <= len L -> skipn (Z.to_nat i) L = rest ->
  scan_inv self L i st ->
  exists st', scan_from self L i rest st = Ok st' /\ scan_inv self L (len L) st'.
Proof.
  induction rest as [|x rest IH]; intros i st Hi Hskip Inv; simpl.
  - exists st; split; [reflexivity|].
    apply skipn_nil_len in Hskip; [|lia].
    replace (len L) with i by lia. exact Inv.
  - apply item_skipn_cons in Hskip as [Hx Hskip]; [|lia].
    pose proof (item_Some_lt _ _ _ Hx) as Hlt.
    destruct (scan_step_inv L st i x) as (st1 & -> & Inv1);
      [lia|exact Hx|exact Inv|].
    cbn [bind]. apply IH; [lia|exact Hskip|exact Inv1].
Qed.

(** The scan of any envelope completes, and the invariant holds at its end. *)
Lemma scan_ok L :
  exists st, scan self L = Ok st /\ scan_inv self L (len L) st.
Proof.
  unfold scan. apply scan_from_inv.
  - pose proof (len_nonneg L); lia.
  - reflexivity.
  - cbn. lia.
Qed.

Lemma scan_inv_of_scan L st :
  scan self L = Ok st -> scan_inv self L (len L) st.
Proof.
  intros E. destruct (scan_ok L) as (st' & E' & Inv). congruence.
Qed.

End ScanFacts.

(** ** From the ranges to the returned chunks *)

Section ChunkFacts.

Context `{Num : Numeric}.
Variable self : Slicer.
Hypothesis hop_pos : 0 < hop_size self.
Implicit Types (w : waveform) (ts : list tag) (xs : list slice_item).

Lemma ordered_le l xs u : ordered l xs u -> l <= u.
Proof.
  revert l; induction xs as [|[|c s e] xs IH]; simpl; intros l H;
    [exact H|contradiction|].
  destruct H as (H1 & H2 & H3). apply IH in H3. lia.
Qed.

Lemma ordered_widen l l' xs u u' :
  ordered l xs u -> l' <= l -> u <= u' -> ordered l' xs u'.
Proof.
  revert l l'; induction xs as [|[|c s e] xs IH]; simpl; intros l l' H Hl Hu;
    [lia|contradiction|].
  destruct H as (H1 & H2 & H3). repeat split; [lia|lia|].
  apply IH with (l := e); [exact H3|lia|lia].
Qed.

Lemma ordered_app l xs m ys u :
  ordered l xs m -> ordered m ys u -> ordered l (xs ++ ys) u.
Proof.
  revert l; induction xs as [|[|c s e] xs IH]; simpl; intros l H Hy;
    [|contradiction|].
  - apply ordered_widen with (l := m) (u := u); [exact Hy|lia|lia].
  - destruct H as (H1 & H2 & H3). auto.
Qed.

Lemma ordered_In l xs u c s e :
  ordered l xs u -> In (Chunk c s e) xs -> l <= s /\ s < e /\ e <= u.
Proof.
  revert l; induction xs as [|[|c' s' e'] xs IH]; simpl; intros l H Hin;
    [contradiction|contradiction|].
  destruct H as (H1 & H2 & H3).
  destruct Hin as [E|Hin].
  - inversion E; subst. apply ordered_le in H3. lia.
  - destruct (IH _ H3 Hin) as (A & B & C). lia.
Qed.

Lemma ordered_pairwise l xs u : ordered l xs u ->
  forall i j c1 s1 e1 c2 s2 e2, (i < j)%nat ->
    nth_error xs i = Some (Chunk c1 s1 e1) ->
    nth_error xs j = Some (Chunk c2 s2 e2) ->
    s1 < s2 /\ e1 < e2 /\ e1 <= s2.
Proof.
  revert l; induction xs as [|[|c s e] xs IH]; simpl; intros l H i j c1 s1 e1 c2 s2 e2 Hij Hi Hj.
  - destruct i; discriminate.
  - contradiction.
  - destruct H as (H1 & H2 & H3).
    destruct j as [|j]; [lia|]. simpl in Hj.
    destruct i as [|i]; simpl in Hi.
    + inversion Hi; subst.
      apply nth_error_In in Hj.
      destruct (ordered_In _ _ _ _ _ _ H3 Hj) as (A & B & C). lia.
    + apply (IH _ H3 i j c1 s1 e1 c2 s2 e2); [lia|exact Hi|exact Hj].
Qed.

(** The chunks between neighbouring ranges run from the end of the first
    range to the start of the last one. *)
Lemma between_tags_ordered w : forall rest l lo hi lo' hi' b,
  chain l ((lo, hi) :: rest ++ [(lo', hi')]) b ->
  ordered (hi * hop_size self)
    (between_tags self w ((lo, hi) :: rest ++ [(lo', hi')]))
    (lo' * hop_size self).
Proof.
  induction rest as [|[a c] rest IH]; intros l lo hi lo' hi' b H.
  - simpl in *. nia.
  - change (((a, c) :: rest) ++ [(lo', hi')]) with ((a, c) :: rest ++ [(lo', hi')]) in *.
    cbn [between_tags fst snd ordered].
    destruct H as (H1 & H2 & H3).
    pose proof H3 as (H4 & H5 & _).
    repeat split; [lia|nia|].
    apply ordered_widen with (l := c * hop_size self) (u := lo' * hop_size self);
      [apply (IH _ _ _ _ _ _ H3)|nia|lia].
Qed.

Lemma between_tags_single w t : between_tags self w [t] = [].
Proof. reflexivity. Qed.

(** With at least one range recorded, the returned chunks are in order and
    none reaches past [total_frames * hop_size]. *)
Lemma apply_slices_ordered w total ts :
  closed_tags total ts -> ts <> [] ->
  ordered 0 (apply_slices self w total ts) (total * hop_size self).
Proof.
  intros [->|(init & lo & hi & E & Hc & Hlh & Hlt)] Hne; [congruence|].
  unfold apply_slices.
  destruct ts as [|first tl] eqn:Ets; [congruence|]. clear Hne.
  assert (last (first :: tl) first = (lo, hi)) as Hlast
    by (rewrite E; apply last_last).
  cbv zeta. rewrite Hlast. cbn [fst snd].
  assert (ordered (lo * hop_size self)
            (if hi <? total
             then [Chunk (_apply_slice self w hi total)
                     (hi * hop_size self) (total * hop_size self)]
             else [])
            (total * hop_size self)) as Hfinal.
  { destruct (Z.ltb_spec hi total); simpl; nia. }
  destruct init as [|[lo0 hi0] init].
  - (* a single range *)
    simpl in E. inversion E; subst first tl. cbn [fst between_tags app].
    simpl in Hc.
    apply ordered_app with (m := lo * hop_size self); [|exact Hfinal].
    destruct (Z.gtb_spec lo 0); simpl; nia.
  - change (((lo0, hi0) :: init) ++ [(lo, hi)])
      with ((lo0, hi0) :: init ++ [(lo, hi)]) in E.
    inversion E; subst first tl. cbn [fst].
    assert (chain 0 ((lo0, hi0) :: init ++ [(lo, hi)]) (hi + 1)) as Hall.
    { change ((lo0, hi0) :: init ++ [(lo, hi)])
        with (((lo0, hi0) :: init) ++ [(lo, hi)]).
      apply chain_snoc with (a := lo); [exact Hc|lia|lia|lia]. }
    pose proof Hall as (H0 & H1 & _).
    apply ordered_app with (m := hi0 * hop_size self).
    + destruct (Z.gtb_spec lo0 0); simpl; nia.
    + apply ordered_app with (m := lo * hop_size self); [|exact Hfinal].
      apply (between_tags_ordered w _ _ _ _ _ _ _ Hall).
Qed.

End ChunkFacts.

(** ** The trailing silence *)

Section TrailingFacts.

Context `{Num : Numeric}.
Variable self : Slicer.
Hypothesis kept_nonneg : 0 <= max_sil_kept self.

Lemma chain_closed ts b total : chain 0 ts b -> b <= total -> closed_tags total ts.
Proof.
  intros Hc Hb.
  destruct ts as [|t ts']; [left; reflexivity|].
  destruct (@exists_last _ (t :: ts')) as (init & [lo hi] & E); [discriminate|].
  rewrite E in *.
  right. exists init, lo, hi.
  apply chain_snoc_inv in Hc as (Hc & Hl). repeat split; [exact Hc|lia|lia].
Qed.

Lemma trailing_silence_closed L st :
  scan_inv self L (len L) st ->
  exists ts, trailing_silence self L st = Ok ts /\ closed_tags (len L) ts.
Proof.
  unfold scan_inv, trailing_silence. intros Inv.
  destruct (silence_start st) as [s|].
  - destruct Inv as (Hs & Hc & _).
    destruct (Z.geb_spec (len L - s) (min_interval self)).
    + destruct (min_pos_bounds L s (Z.min (len L) (s + max_sil_kept self) + 1))
        as (p & -> & Hp & Hpl); [lia|lia|].
      cbn [bind]. eexists; split; [reflexivity|].
      right. exists (sil_tags st), p, (len L + 1).
      repeat split; [|lia|lia].
      apply chain_weaken with (b := s); [exact Hc|lia].
    + eexists; split; [reflexivity|].
      apply chain_closed with (b := s); [exact Hc|lia].
  - eexists; split; [reflexivity|].
    apply chain_closed with (b := len L); [exact Inv|lia].
Qed.

End TrailingFacts.

(** ** The rational instance *)

Lemma Qltb_lt a b : Rational.Qltb a b = true <-> (a < b)%Q.
Proof.
  unfold Rational.Qltb. rewrite negb_true_iff.
  split.
  - intros E. apply Qnot_le_lt. intros Hle.
    apply Qle_bool_iff in Hle. congruence.
  - intros Hlt. destruct (Qle_bool b a) eqn:E; [|reflexivity].
    apply Qle_bool_iff in E. exfalso. exact (Qlt_not_le _ _ Hlt E).
Qed.

Lemma Qltb_ge a b : Rational.Qltb a b = false <-> (b <= a)%Q.
Proof.
  unfold Rational.Qltb. rewrite negb_false_iff. apply Qle_bool_iff.
Qed.

Lemma rational_order : @EnergyOrder Rational.numeric.
Proof.
  split; cbn [lt Rational.numeric].
  - intros a b Hab. apply Qltb_ge. apply Qlt_le_weak. apply Qltb_lt. exact Hab.
  - intros a b c Hab Hcb. apply Qltb_lt.
    apply Qlt_le_trans with (y := b); [apply Qltb_lt; exact Hab|].
    apply Qltb_ge. exact Hcb.
Qed.

Example slicer_24k_frames :
  Rational.slicer_24k =
    Ok (@Build_Slicer Rational.numeric (1 # 100)%Q 480 1920 1000 15 100).
Proof. reflexivity. Qed.

Example small_built : __init__ (Num := Rational.numeric) 1000 (-40) 8 2 2 2 = Ok Rational.small.
Proof. reflexivity. Qed.

Example wide_built : __init__ (Num := Rational.numeric) 1000 (-40) 8 4 2 4 = Ok Rational.wide.
Proof. reflexivity. Qed.

(** A sampling rate too low for the hop leaves a hop of zero frames, and the
    constructor stops on the division. *)
Example zero_hop :
  __init__ (Num := Rational.numeric) 10 (-40) 20000 300 20 2000
  = Raise ZeroDivisionError.
Proof. reflexivity. Qed.

(** ** The constructor *)

(** What a constructed slicer holds. *)
Lemma init_fields `{Num : Numeric} (sr : Z) (db : Q) (ml mi hop msk : Z) self :
  __init__ sr db ml mi hop msk = Ok self ->
     (ml >= mi /\ mi >= hop) /\ msk >= hop /\
     threshold self = db_to_amplitude db /\
     hop_size self = py_round (inject_Z (sr * hop) / 1000) /\
     hop_size self <> 0 /\
     win_size self =
       Z.min (py_round (inject_Z (sr * mi) / 1000)) (4 * hop_size self) /\
     min_length self =
       py_round (inject_Z (sr * ml) / 1000 / inject_Z (hop_size self)) /\
     min_interval self =
       py_round (inject_Z (sr * mi) / 1000 / inject_Z (hop_size self)) /\
     max_sil_kept self =
       py_round (inject_Z (sr * msk) / 1000 / inject_Z (hop_size self)).
Proof.
  unfold __init__, truediv.
  destruct (Z.geb_spec ml mi) as [H1|H1];
  destruct (Z.geb_spec mi hop) as [H2|H2];
  destruct (Z.geb_spec msk hop) as [H3|H3]; cbn [andb negb];
    try discriminate.
  destruct (Z.eqb_spec (py_round (inject_Z (sr * hop) / 1000)) 0) as [H0|H0];
    cbn [bind]; [discriminate|].
  intros E. inversion E; subst self;
    cbn [threshold hop_size win_size min_length min_interval max_sil_kept].
  repeat split; try lia; try reflexivity.
Qed.

(** C6. The constructor raises its configuration error exactly when
    [min_length >= min_interval >= hop_size] or [max_sil_kept >= hop_size]
    fails.  A slicer is only ever returned with both orderings satisfied,
    and then every field is the frame count computed from the millisecond
    parameters. *)
Theorem init_configuration_error `{Num : Numeric}
    (sr : Z) (db : Q) (ml mi hop msk : Z) :
  ((exists msg, __init__ sr db ml mi hop msk = Raise (ValueError msg)) <->
   (~ (ml >= mi /\ mi >= hop) \/ ~ msk >= hop)) /\
  (forall self, __init__ sr db ml mi hop msk = Ok self ->
     (ml >= mi /\ mi >= hop) /\ msk >= hop /\
     threshold self = db_to_amplitude db /\
     hop_size self = py_round (inject_Z (sr * hop) / 1000) /\
     hop_size self <> 0 /\
     win_size self =
       Z.min (py_round (inject_Z (sr * mi) / 1000)) (4 * hop_size self) /\
     min_length self =
       py_round (inject_Z (sr * ml) / 1000 / inject_Z (hop_size self)) /\
     min_interval self =
       py_round (inject_Z (sr * mi) / 1000 / inject_Z (hop_size self)) /\
     max_sil_kept self =
       py_round (inject_Z (sr * msk) / 1000 / inject_Z (hop_size self))).
Proof.
  split; [|intros self; apply init_fields].
  unfold __init__, truediv.
  destruct (Z.geb_spec ml mi) as [H1|H1];
  destruct (Z.geb_spec mi hop) as [H2|H2];
  destruct (Z.geb_spec msk hop) as [H3|H3]; cbn [andb negb].
  1: destruct (Z.eqb_spec (py_round (inject_Z (sr * hop) / 1000)) 0) as [H0|H0];
     cbn [bind].
  all: split;
    [ intros [msg E]; try discriminate E; lia
    | intros Hv; try (eexists; reflexivity); lia ].
Qed.

Lemma init_configuration_error_witness :
  ((exists msg, __init__ (Num := Rational.numeric) 24000 (-40) 300 20000 20 2000
                = Raise (ValueError msg)) <->
   (~ (300 >= 20000 /\ 20000 >= 20) \/ ~ 2000 >= 20)) /\
  (forall self, __init__ (Num := Rational.numeric) 1000 (-40) 8 2 2 2 = Ok self ->
     hop_size self = 2).
Proof.
  split.
  - apply (init_configuration_error (Num := Rational.numeric) 24000 (-40) 300 20000 20 2000).
  - intros self E.
    destruct (init_configuration_error (Num := Rational.numeric) 1000 (-40) 8 2 2 2)
      as (_ & H).
    destruct (H self E) as (_ & _ & _ & Hhop & _).
    rewrite Hhop. vm_compute. reflexivity.
Defined.

Lemma py_round_nonneg (x : Q) : (0 <= x)%Q -> 0 <= py_round x.
Proof.
  intros Hx. unfold py_round.
  assert (0 <= Qfloor x) as Hf.
  { change 0 with (Qfloor 0). apply Qfloor_resp_le. exact Hx. }
  destruct (Qcompare _ _); [destruct (Z.even _)|..]; lia.
Qed.

Lemma Qdiv_nonneg (a : Z) (b : Q) :
  0 <= a -> (0 <= b)%Q -> (0 <= inject_Z a / b)%Q.
Proof.
  intros Ha Hb. unfold Qdiv. apply Qmult_le_0_compat.
  - change (inject_Z 0 <= inject_Z a)%Q. rewrite <- Zle_Qle. exact Ha.
  - apply Qinv_le_0_compat. exact Hb.
Qed.

(** A slicer built for a positive sampling rate and a positive hop has a
    positive [hop_size] and no negative frame count. *)
Lemma init_frames `{Num : Numeric} (sr : Z) (db : Q) (ml mi hop msk : Z) self :
  0 < sr -> 0 < hop ->
  __init__ sr db ml mi hop msk = Ok self ->
  0 < hop_size self /\ 0 <= max_sil_kept self /\
  0 <= min_interval self /\ 0 <= min_length self.
Proof.
  intros Hsr Hhop E.
  destruct (init_fields sr db ml mi hop msk self E) as ((H1 & H2) & H3 & _ & Hh & Hnz & _ & Hml & Hmi & Hms).
  assert (0 <= hop_size self) as Hh0.
  { rewrite Hh. apply py_round_nonneg. apply Qdiv_nonneg; [nia|discriminate]. }
  assert (0 <= inject_Z (hop_size self))%Q as Hq
    by (change (inject_Z 0 <= inject_Z (hop_size self))%Q;
        rewrite <- Zle_Qle; exact Hh0).
  assert (forall a, 0 <= a ->
            0 <= py_round (inject_Z (sr * a) / 1000 / inject_Z (hop_size self))) as Hr.
  { intros a Ha. apply py_round_nonneg. unfold Qdiv at 1.
    apply Qmult_le_0_compat.
    - apply Qdiv_nonneg; [nia|discriminate].
    - apply Qinv_le_0_compat. exact Hq. }
  split; [lia|]. rewrite Hms, Hmi, Hml.
  split; [apply Hr; lia|]. split; apply Hr; lia.
Qed.

(** ** One iteration of the scan *)

(** C3. When a loud frame [i] closes the silence run that began at
    [silence_start]: a range is recorded for a run that is not leading
    silence only if [i - silence_start >= min_interval] and
    [i - clip_start >= min_length]; and a run that is neither leading
    silence nor long and far enough is dropped, with [sil_tags] and
    [clip_start] as they were and [silence_start] cleared. *)
Theorem mid_cut_gate `{Num : Numeric} (self : Slicer)
    (rms_list : list energy) (st st' : scan_state) (i s : Z) (x : energy) :
  lt x (threshold self) = false ->
  silence_start st = Some s ->
  scan_step self rms_list st i x = Ok st' ->
  (sil_tags st' <> sil_tags st -> is_leading_silence self s i = false ->
     i - s >= min_interval self /\ i - clip_start st >= min_length self) /\
  (is_leading_silence self s i = false ->
   need_slice_middle self s (clip_start st) i = false ->
     st' = {| silence_start := None;
              clip_start := clip_start st;
              sil_tags := sil_tags st |}).
Proof.
  intros Hloud Hs Hstep. unfold scan_step in Hstep.
  rewrite Hloud, Hs in Hstep.
  split.
  - intros Hchanged Hlead. rewrite Hlead in Hstep. cbn [negb andb] in Hstep.
    destruct (need_slice_middle self s (clip_start st) i) eqn:Hmid.
    + unfold need_slice_middle in Hmid.
      apply andb_true_iff in Hmid as [Ha Hb].
      apply Z.geb_le in Ha, Hb. lia.
    + cbn [negb] in Hstep. inversion Hstep; subst st'. cbn in Hchanged. congruence.
  - intros Hlead Hmid. rewrite Hlead, Hmid in Hstep. cbn [negb andb] in Hstep.
    congruence.
Qed.

(** A run of one frame closes at frame 4, four frames after the start of the
    clip: the range (3, 3) is recorded. *)
Lemma mid_cut_gate_witness :
  let st := {| silence_start := Some 3; clip_start := 0; sil_tags := [] |} in
  let st' := {| silence_start := None; clip_start := 3; sil_tags := [(3, 3)] |} in
  let L := [1; 1; 1; 0; 1]%Q in
  scan_step Rational.small L st 4 1%Q = Ok st' /\
  ((sil_tags st' <> sil_tags st -> is_leading_silence Rational.small 3 4 = false ->
      4 - 3 >= min_interval Rational.small /\ 4 - 0 >= min_length Rational.small) /\
   (is_leading_silence Rational.small 3 4 = false ->
    need_slice_middle Rational.small 3 0 4 = false ->
      st' = {| silence_start := None; clip_start := 0; sil_tags := [] |})).
Proof.
  intros st st' L.
  assert (scan_step Rational.small L st 4 1%Q = Ok st') as E
    by (vm_compute; reflexivity).
  split; [exact E|].
  apply (mid_cut_gate (Num := Rational.numeric) Rational.small L st st' 4 3 1%Q);
    [vm_compute; reflexivity|reflexivity|exact E].
Defined.

(** C5. A run that starts at frame 0 and is closed by frame [i] is leading
    silence exactly when [i > max_sil_kept]: not at [i = max_sil_kept], where
    the run is dropped unless it qualifies as a cut in the middle, and it is
    at [i = max_sil_kept + 1].  The range recorded for leading silence
    starts at frame 0. *)
Theorem leading_silence_boundary `{Num : Numeric} (self : Slicer) :
  (forall i, is_leading_silence self 0 i = true <-> i > max_sil_kept self) /\
  is_leading_silence self 0 (max_sil_kept self) = false /\
  is_leading_silence self 0 (max_sil_kept self + 1) = true /\
  (forall rms_list st x,
     silence_start st = Some 0 ->
     lt x (threshold self) = false ->
     need_slice_middle self 0 (clip_start st) (max_sil_kept self) = false ->
     scan_step self rms_list st (max_sil_kept self) x =
       Ok {| silence_start := None;
             clip_start := clip_start st;
             sil_tags := sil_tags st |}) /\
  (forall rms_list st i x,
     0 <= max_sil_kept self ->
     silence_start st = Some 0 ->
     lt x (threshold self) = false ->
     i < len rms_list ->
     is_leading_silence self 0 i = true ->
     exists hi,
       0 <= hi <= i /\
       scan_step self rms_list st i x =
         Ok {| silence_start := None;
               clip_start := hi;
               sil_tags := sil_tags st ++ [(0, hi)] |}).
Proof.
  assert (forall i, is_leading_silence self 0 i = true <-> i > max_sil_kept self)
    as Hiff.
  { intros i. unfold is_leading_silence. cbn [Z.eqb andb].
    rewrite Z.gtb_ltb, Z.ltb_lt. lia. }
  split; [exact Hiff|]. split; [|split; [|split]].
  - destruct (is_leading_silence self 0 (max_sil_kept self)) eqn:E; [|reflexivity].
    apply Hiff in E. lia.
  - apply Hiff. lia.
  - intros L st x Hs Hloud Hmid. unfold scan_step. rewrite Hloud, Hs, Hmid.
    destruct (is_leading_silence self 0 (max_sil_kept self)) eqn:E; [|reflexivity].
    apply Hiff in E. lia.
  - intros L st i x Hk Hs Hloud Hi Hlead.
    unfold scan_step. rewrite Hloud, Hs, Hlead. cbn [negb andb].
    apply Hiff in Hlead.
    destruct (record_range_ok self Hk L st 0 i) as (lo & hi & -> & H1 & H2 & H3 & H4);
      [lia|lia|].
    exists hi. rewrite (H4 eq_refl) in *. split; [lia|reflexivity].
Qed.

(** With two frames of silence kept, a run from frame 0 closed at frame 3 is
    leading silence and the range (0, 1) is recorded. *)
Lemma leading_silence_boundary_witness :
  let st := {| silence_start := Some 0; clip_start := 0; sil_tags := [] |} in
  let L := [0; 0; 0; 1; 1]%Q in
  is_leading_silence Rational.wide 0 2 = false /\
  is_leading_silence Rational.wide 0 3 = true /\
  need_slice_middle Rational.wide 0 0 2 = false /\
  scan_step Rational.wide L st 2 1%Q =
    Ok {| silence_start := None; clip_start := 0; sil_tags := [] |} /\
  exists hi, 0 <= hi <= 3 /\
    scan_step Rational.wide L st 3 1%Q =
      Ok {| silence_start := None; clip_start := hi; sil_tags := [] ++ [(0, hi)] |}.
Proof.
  intros st L.
  destruct (leading_silence_boundary (Num := Rational.numeric) Rational.wide)
    as (_ & H2 & H3 & Hdrop & Hcut).
  split; [exact H2|]. split; [exact H3|].
  assert (need_slice_middle Rational.wide 0 0 2 = false) as Hmid
    by (vm_compute; reflexivity).
  split; [exact Hmid|]. split.
  - apply (Hdrop L st 1%Q); [reflexivity|vm_compute; reflexivity|exact Hmid].
  - apply (Hcut L st 3 1%Q);
      [vm_compute; discriminate|reflexivity|vm_compute; reflexivity
      |vm_compute; reflexivity|vm_compute; reflexivity].
Defined.

(** ** The returned list *)

Section SliceFacts.

Context `{Num : Numeric}.
Variable self : Slicer.
Implicit Types (w : waveform) (ts : list tag) (items : list slice_item).

Lemma between_tags_chunks w ts : Forall is_chunk (between_tags self w ts).
Proof.
  induction ts as [|t [|t' ts] IH]; cbn [between_tags]; constructor;
    [exact I|exact IH].
Qed.

Lemma apply_slices_chunks w total ts : Forall is_chunk (apply_slices self w total ts).
Proof.
  unfold apply_slices. destruct ts as [|first tl].
  - repeat constructor.
  - cbv zeta. apply Forall_app; split; [|apply Forall_app; split].
    + destruct (fst first >? 0); repeat constructor.
    + apply between_tags_chunks.
    + destruct (snd (last (first :: tl) first) <? total); repeat constructor.
Qed.

(** Every chunk is cut between two frame indices with [_apply_slice], its
    reported range being those indices times [hop_size]; the one exception
    is the whole waveform returned when no range was recorded. *)
Lemma between_tags_In w ts c s e :
  In (Chunk c s e) (between_tags self w ts) ->
  exists b e', s = b * hop_size self /\ e = e' * hop_size self /\
               c = _apply_slice self w b e'.
Proof.
  induction ts as [|t [|t' ts] IH]; cbn [between_tags]; try contradiction.
  intros [E|Hin]; [|exact (IH Hin)].
  inversion E; subst. exists (snd t), (fst t'). auto.
Qed.

Lemma apply_slices_In w total ts c s e :
  In (Chunk c s e) (apply_slices self w total ts) ->
  exists b e', s = b * hop_size self /\ e = e' * hop_size self /\
    (c = _apply_slice self w b e' \/ (ts = [] /\ c = w /\ b = 0 /\ e' = total)).
Proof.
  unfold apply_slices. destruct ts as [|first tl].
  - intros [E|[]]. inversion E; subst. exists 0, total.
    split; [reflexivity|]. split; [reflexivity|]. right. auto.
  - cbv zeta. rewrite !in_app_iff. intros [H|[H|H]].
    + destruct (fst first >? 0); [|contradiction].
      destruct H as [E|[]]. inversion E; subst. exists 0, (fst first). auto.
    + destruct (between_tags_In _ _ _ _ _ H) as (b & e' & ? & ? & ?).
      exists b, e'. auto.
    + destruct (snd (last (first :: tl) first) <? total); [|contradiction].
      destruct H as [E|[]]. inversion E; subst.
      exists (snd (last (first :: tl) first)), total. auto.
Qed.

(** What [slice] does past the early return. *)
Lemma slice_scanned w items :
  slice self w = Ok items ->
  min_length self < len (mono_samples w) ->
  exists L st ts,
    rms (mono_samples w) (win_size self) (hop_size self) = Ok L /\
    scan self L = Ok st /\
    trailing_silence self L st = Ok ts /\
    items = apply_slices self w (len L) ts.
Proof.
  unfold slice. intros E Hlong.
  destruct (Z.leb_spec (len (mono_samples w)) (min_length self)); [lia|].
  destruct (rms _ _ _) as [L|] eqn:Hrms; cbn [bind] in E; [|discriminate].
  destruct (scan self L) as [st|] eqn:Hscan; cbn [bind] in E; [|discriminate].
  destruct (trailing_silence self L st) as [ts|] eqn:Htrail; cbn [bind] in E;
    [|discriminate].
  inversion E; subst items. exists L, st, ts. repeat split; assumption.
Qed.

(** The early return. *)
Lemma slice_early w :
  len (mono_samples w) <= min_length self -> slice self w = Ok [Bare w].
Proof.
  intros Hshort. unfold slice.
  destruct (Z.leb_spec (len (mono_samples w)) (min_length self)); [reflexivity|lia].
Qed.

(** C10. The early return hands back a one-element list that holds the
    waveform itself, with no offsets; every other return hands back
    [chunk, start, end] entries only. *)
Theorem result_shapes (w : waveform) :
  (len (mono_samples w) <= min_length self -> slice self w = Ok [Bare w]) /\
  (min_length self < len (mono_samples w) ->
   forall items, slice self w = Ok items -> Forall is_chunk items).
Proof.
  split.
  - apply slice_early.
  - intros Hlong items E.
    destruct (slice_scanned w items E Hlong) as (L & st & ts & _ & _ & _ & ->).
    apply apply_slices_chunks.
Qed.

End SliceFacts.

Lemma result_shapes_witness :
  let short := Rational.mono [1; 1; 1]%Q in
  let long := Rational.mono [1; 1; 1; 1; 1]%Q in
  (len (mono_samples short) <= min_length Rational.small /\
   slice Rational.small short = Ok [Bare short]) /\
  (min_length Rational.small < len (mono_samples long) /\
   slice Rational.small long = Ok [Chunk long 0 6] /\
   Forall is_chunk [Chunk long 0 6]).
Proof.
  intros short long.
  assert (len (mono_samples short) <= min_length Rational.small) as Hs
    by (vm_compute; discriminate).
  assert (min_length Rational.small < len (mono_samples long)) as Hl
    by (vm_compute; reflexivity).
  assert (slice Rational.small long = Ok [Chunk long 0 6]) as E
    by reflexivity.
  split; [split; [exact Hs|]|split; [exact Hl|split; [exact E|]]].
  - apply (proj1 (result_shapes Rational.small short) Hs).
  - apply (proj2 (result_shapes Rational.small long) Hl _ E).
Defined.

Section OrderFacts.

Context `{Num : Numeric}.
Variable self : Slicer.
Hypothesis hop_pos : 0 < hop_size self.
Hypothesis kept_nonneg : 0 <= max_sil_kept self.

(** The final [sil_tags] of a run of [slice]. *)
Lemma final_tags_closed L st ts :
  scan self L = Ok st -> trailing_silence self L st = Ok ts ->
  closed_tags (len L) ts.
Proof.
  intros Hscan Htrail.
  apply (scan_inv_of_scan self kept_nonneg) in Hscan.
  destruct (trailing_silence_closed self kept_nonneg L st Hscan) as (ts' & E & Hc).
  congruence.
Qed.

(** C7. With a positive hop and a non-negative number of kept silence
    frames, the chunks [slice] returns are strictly increasing in their start
    offsets and in their end offsets, and a chunk ends no later than the next
    one starts. *)
Theorem chunks_strictly_increasing (w : waveform) (items : list slice_item) :
  slice self w = Ok items ->
  forall i j c1 s1 e1 c2 s2 e2, (i < j)%nat ->
    nth_error items i = Some (Chunk c1 s1 e1) ->
    nth_error items j = Some (Chunk c2 s2 e2) ->
    s1 < s2 /\ e1 < e2 /\ e1 <= s2.
Proof.
  intros E i j c1 s1 e1 c2 s2 e2 Hij Hi Hj.
  destruct (Z.le_gt_cases (len (mono_samples w)) (min_length self)) as [Hshort|Hlong].
  - rewrite (slice_early self w Hshort) in E. inversion E; subst items.
    destruct i as [|[|i]]; discriminate Hi.
  - destruct (slice_scanned self w items E) as (L & st & ts & _ & Hscan & Htrail & ->);
      [lia|].
    pose proof (final_tags_closed L st ts Hscan Htrail) as Hc.
    destruct ts as [|t ts].
    + cbn [apply_slices] in Hj. destruct j as [|[|j]]; [lia|discriminate|discriminate].
    + apply (ordered_pairwise 0 _ (len L * hop_size self)
               (apply_slices_ordered self hop_pos w (len L) (t :: ts) Hc ltac:(discriminate))
               i j c1 s1 e1 c2 s2 e2 Hij Hi Hj).
Qed.

(** C8, as the code has it.  A chunk is cut from [begin * hop_size] to
    [min(length, end * hop_size)], the end clamped to the waveform; the start
    and end reported with it are the plain products [begin * hop_size] and
    [end * hop_size].  They are not clamped: they range up to
    [total_frames * hop_size]. *)
Theorem reported_offsets_are_frame_products (w : waveform) (items : list slice_item)
    (c : waveform) (s e : Z) :
  slice self w = Ok items ->
  In (Chunk c s e) items ->
  exists L b e',
    rms (mono_samples w) (win_size self) (hop_size self) = Ok L /\
    s = b * hop_size self /\ e = e' * hop_size self /\
    0 <= b <= e' /\ e' <= len L /\
    (c = _apply_slice self w b e' \/ (c = w /\ b = 0 /\ e' = len L)) /\
    (forall y, w = Mono y ->
       c = Mono (py_slice y s (Z.min (len y) e)) \/ (c = w /\ b = 0 /\ e' = len L)).
Proof.
  intros E Hin.
  destruct (Z.le_gt_cases (len (mono_samples w)) (min_length self)) as [Hshort|Hlong].
  - rewrite (slice_early self w Hshort) in E. inversion E; subst items.
    destruct Hin as [Hin|[]]; discriminate Hin.
  - destruct (slice_scanned self w items E) as (L & st & ts & Hrms & Hscan & Htrail & ->);
      [lia|].
    pose proof (final_tags_closed L st ts Hscan Htrail) as Hc.
    destruct (apply_slices_In self w (len L) ts c s e Hin) as (b & e' & Hs & He & Hshape).
    exists L, b, e'. split; [exact Hrms|]. split; [exact Hs|]. split; [exact He|].
    assert (0 <= b <= e' /\ e' <= len L) as Hb.
    { destruct ts as [|t ts].
      - cbn [apply_slices] in Hin. destruct Hin as [Hin|[]].
        inversion Hin; subst. pose proof (len_nonneg L). nia.
      - pose proof (ordered_In 0 _ (len L * hop_size self) c s e
                      (apply_slices_ordered self hop_pos w (len L) (t :: ts) Hc
                         ltac:(discriminate)) Hin) as (A & B & C).
        subst s e. nia. }
    split; [tauto|]. split; [tauto|]. split.
    + destruct Hshape as [Hs'|(_ & ? & ? & ?)]; auto.
    + intros y ->. destruct Hshape as [->|(_ & ? & ? & ?)]; [left|right; auto].
      subst s e. reflexivity.
Qed.

End OrderFacts.

(** Eight samples, a single silent frame before the last one: two chunks. *)
Lemma chunks_strictly_increasing_witness :
  let w := Rational.mono [1; 1; 1; 1; 1; 0; 0; 1]%Q in
  let items := [Chunk (Rational.mono [1; 1; 1; 1; 1; 0]%Q) 0 6; Chunk (Rational.mono [0; 1]%Q) 6 10] in
  0 < hop_size Rational.small /\ 0 <= max_sil_kept Rational.small /\
  slice Rational.small w = Ok items /\
  (0 < 6 /\ 6 < 10 /\ 6 <= 6).
Proof.
  intros w items.
  assert (0 < hop_size Rational.small) as Hh by reflexivity.
  assert (0 <= max_sil_kept Rational.small) as Hk by (vm_compute; discriminate).
  assert (slice Rational.small w = Ok items) as E by reflexivity.
  split; [exact Hh|]. split; [exact Hk|]. split; [exact E|].
  exact (chunks_strictly_increasing Rational.small Hh Hk w items E
           0%nat 1%nat _ 0 6 _ 6 10 (Nat.lt_0_succ 0) eq_refl eq_refl).
Defined.

Lemma reported_offsets_are_frame_products_witness :
  let w := Rational.mono [1; 1; 1; 1; 1; 0; 0; 1]%Q in
  let items := [Chunk (Rational.mono [1; 1; 1; 1; 1; 0]%Q) 0 6; Chunk (Rational.mono [0; 1]%Q) 6 10] in
  0 < hop_size Rational.small /\ 0 <= max_sil_kept Rational.small /\
  slice Rational.small w = Ok items /\
  In (Chunk (Rational.mono [0; 1]%Q) 6 10) items /\
  exists L b e',
    rms (mono_samples w) (win_size Rational.small) (hop_size Rational.small) = Ok L /\
    6 = b * hop_size Rational.small /\ 10 = e' * hop_size Rational.small /\
    0 <= b <= e' /\ e' <= len L /\
    (Rational.mono [0; 1]%Q = _apply_slice Rational.small w b e' \/
     (Rational.mono [0; 1]%Q = w /\ b = 0 /\ e' = len L)) /\
    (forall y, w = Mono y ->
       Rational.mono [0; 1]%Q = Mono (py_slice y 6 (Z.min (len y) 10)) \/
       (Rational.mono [0; 1]%Q = w /\ b = 0 /\ e' = len L)).
Proof.
  intros w items.
  assert (0 < hop_size Rational.small) as Hh by reflexivity.
  assert (0 <= max_sil_kept Rational.small) as Hk by (vm_compute; discriminate).
  assert (slice Rational.small w = Ok items) as E by reflexivity.
  assert (In (Chunk (Rational.mono [0; 1]%Q) 6 10) items) as Hin by (right; left; reflexivity).
  split; [exact Hh|]. split; [exact Hk|]. split; [exact E|]. split; [exact Hin|].
  apply (reported_offsets_are_frame_products Rational.small Hh Hk w items _ 6 10 E Hin).
Defined.

(** C8, as stated, fails: five loud samples make three frames of two
    samples, and the end reported with the only chunk is 6, past the five
    samples of the waveform. *)
Lemma reported_end_exceeds_length :
  let w := Rational.mono [1; 1; 1; 1; 1]%Q in
  slice Rational.small w = Ok [Chunk w 0 6] /\
  ~ (forall c s e, In (Chunk c s e) [Chunk w 0 6] ->
       s <= len (mono_samples w) /\ e <= len (mono_samples w)).
Proof.
  intros w. split; [reflexivity|].
  intros H. destruct (H w 0 6 (or_introl eq_refl)) as [_ He].
  vm_compute in He. apply He. reflexivity.
Qed.

(** C1, on a clip of [min_length * hop_size] samples.  The early return
    compares the number of samples with [min_length], a number of frames, so
    these eight samples (four frames of two) are scanned and cut in two. *)
Theorem short_clip_is_scanned :
  let w := Rational.mono [1; 1; 1; 1; 1; 0; 0; 1]%Q in
  len (mono_samples w) <= min_length Rational.small * hop_size Rational.small /\
  slice Rational.small w =
    Ok [Chunk (Rational.mono [1; 1; 1; 1; 1; 0]%Q) 0 6; Chunk (Rational.mono [0; 1]%Q) 6 10] /\
  slice Rational.small w <> Ok [Bare w].
Proof.
  intros w.
  assert (slice Rational.small w =
            Ok [Chunk (Rational.mono [1; 1; 1; 1; 1; 0]%Q) 0 6; Chunk (Rational.mono [0; 1]%Q) 6 10])
    as E by reflexivity.
  split; [vm_compute; discriminate|].
  split; [exact E|].
  rewrite E. discriminate.
Qed.

(** ** Empty and silent input *)

Section EmptyFacts.

Context `{Num : Numeric}.
Variable self : Slicer.

Lemma apply_slices_nil w total first tl :
  apply_slices self w total (first :: tl) = [] ->
  tl = [] /\ fst first <= 0 /\ total <= snd first.
Proof.
  unfold apply_slices. cbv zeta. intros E.
  apply app_eq_nil in E as [E1 E2]. apply app_eq_nil in E2 as [E2 E3].
  destruct tl as [|t' tl]; [|discriminate E2].
  cbn [last] in E3. split; [reflexivity|]. split.
  - destruct (Z.gtb_spec (fst first) 0); [discriminate E1|lia].
  - destruct (Z.ltb_spec (snd first) total); [discriminate E3|lia].
Qed.

Lemma In_item {A : Type} (l : list A) (x : A) :
  In x l -> exists j, item l j = Some x.
Proof.
  intros Hin. apply In_nth_error in Hin as [n Hn].
  exists (Z.of_nat n). unfold item.
  destruct (Z.ltb_spec (Z.of_nat n) 0); [lia|].
  rewrite Nat2Z.id. exact Hn.
Qed.

(** C2, as the code has it.  An empty waveform raises nothing: with a
    non-negative [min_length] it comes back as the only element of the
    result.  A waveform that is not empty yields an empty list only when
    every frame of its envelope is below the threshold, the whole of it
    being removed as trailing silence. *)
Theorem empty_in_silent_out (w : waveform) :
  (mono_samples w = [] -> 0 <= min_length self -> slice self w = Ok [Bare w]) /\
  (mono_samples w <> [] -> 0 <= max_sil_kept self -> slice self w = Ok [] ->
   exists L,
     rms (mono_samples w) (win_size self) (hop_size self) = Ok L /\
     L <> [] /\ len L >= min_interval self /\
     forall e, In e L -> lt e (threshold self) = true).
Proof.
  split.
  - intros Hempty Hmin. apply slice_early.
    rewrite Hempty. cbn. exact Hmin.
  - intros _ Hk E.
    destruct (Z.le_gt_cases (len (mono_samples w)) (min_length self)) as [Hshort|Hlong].
    { rewrite (slice_early self w Hshort) in E. discriminate E. }
    destruct (slice_scanned self w [] E) as (L & st & ts & Hrms & Hscan & Htrail & Hnil);
      [lia|].
    exists L. split; [exact Hrms|].
    apply (scan_inv_of_scan self Hk) in Hscan.
    destruct ts as [|first tl]; [discriminate Hnil|].
    symmetry in Hnil. apply apply_slices_nil in Hnil as (-> & Hlo & Hhi).
    unfold trailing_silence in Htrail. unfold scan_inv in Hscan.
    destruct (silence_start st) as [s|].
    + destruct Hscan as (Hs & Hc & Hsilent).
      destruct (Z.geb_spec (len L - s) (min_interval self)) as [Hlen|Hlen].
      * destruct (min_pos L s _) as [p|] eqn:Hp; cbn [bind] in Htrail; [|discriminate].
        apply min_pos_range in Hp as [Hp _]; [|lia|lia].
        inversion Htrail as [Htags].
        destruct (sil_tags st) as [|t tags].
        -- cbn in Htags. inversion Htags; subst first. cbn [fst] in Hlo.
           assert (s = 0) as -> by lia.
           split; [intros ->; cbn in Hs; lia|]. split; [lia|].
           intros e Hin. apply In_item in Hin as [j Hj].
           apply (Hsilent j); [|exact Hj].
           apply item_Some_lt in Hj. lia.
        -- cbn in Htags. inversion Htags as [[Ht Hrest]].
           destruct tags; discriminate Hrest.
      * inversion Htrail as [Htags]. rewrite Htags in Hc.
        destruct first as [lo hi]. cbn in Hc, Hhi. lia.
    + inversion Htrail as [Htags]. rewrite Htags in Hscan.
      destruct first as [lo hi]. cbn in Hscan, Hhi. lia.
Qed.

End EmptyFacts.

Lemma empty_in_silent_out_witness :
  let empty := Rational.mono [] in
  let silent := Rational.mono [0; 0; 0; 0; 0; 0; 0; 0; 0; 0]%Q in
  (mono_samples empty = [] /\ 0 <= min_length Rational.small /\
   slice Rational.small empty = Ok [Bare empty]) /\
  (mono_samples silent <> [] /\ 0 <= max_sil_kept Rational.small /\
   slice Rational.small silent = Ok [] /\
   exists L,
     rms (mono_samples silent) (win_size Rational.small) (hop_size Rational.small)
       = Ok L /\
     L <> [] /\ len L >= min_interval Rational.small /\
     forall e, In e L -> lt e (threshold Rational.small) = true).
Proof.
  intros empty silent.
  assert (0 <= min_length Rational.small) as Hmin by (apply Z.leb_le; reflexivity).
  assert (0 <= max_sil_kept Rational.small) as Hk by (apply Z.leb_le; reflexivity).
  assert (mono_samples silent <> []) as Hne by discriminate.
  assert (slice Rational.small silent = Ok []) as E by reflexivity.
  split.
  - split; [reflexivity|]. split; [exact Hmin|].
    exact (proj1 (empty_in_silent_out Rational.small empty) eq_refl Hmin).
  - split; [exact Hne|]. split; [exact Hk|]. split; [exact E|].
    exact (proj2 (empty_in_silent_out Rational.small silent) Hne Hk E).
Defined.

(** C2, as stated, fails on both counts: the empty waveform is returned, not
    refused, and ten samples of digital silence give an empty list. *)
Lemma empty_accepted_silence_dropped :
  let empty := Rational.mono [] in
  let silent := Rational.mono [0; 0; 0; 0; 0; 0; 0; 0; 0; 0]%Q in
  (mono_samples empty = [] /\ slice Rational.small empty = Ok [Bare empty]) /\
  (mono_samples silent <> [] /\ slice Rational.small silent = Ok []).
Proof.
  intros empty silent.
  split; (split; [|reflexivity]); [reflexivity|discriminate].
Qed.

(** ** The trailing cut *)

Section TrailingCut.

Context `{Num : Numeric}.
Variable self : Slicer.
Hypothesis Ord : EnergyOrder.
Hypothesis kept_nonneg : 0 <= max_sil_kept self.

(** C4. At the end of the scan a trailing range is recorded exactly when a
    silence run is still open and [total_frames - silence_start >=
    min_interval].  The range is [(pos, total_frames + 1)], [pos] being the
    first frame of least energy among the frames [silence_start ..
    min(total_frames, silence_start + max_sil_kept)].  A shorter open run
    leaves [sil_tags] as it is, and the last chunk returned then runs to
    [total_frames] from a frame no later than the start of the run. *)
Theorem trailing_cut (rms_list : list energy) (st : scan_state) (w : waveform) :
  scan self rms_list = Ok st ->
  (forall s, silence_start st = Some s ->
     len rms_list - s >= min_interval self ->
     exists pos,
       trailing_silence self rms_list st =
         Ok (sil_tags st ++ [(pos, len rms_list + 1)]) /\
       first_min rms_list s
         (Z.min (len rms_list) (s + max_sil_kept self) + 1) pos) /\
  (silence_start st = None \/
   (exists s, silence_start st = Some s /\ len rms_list - s < min_interval self) ->
     trailing_silence self rms_list st = Ok (sil_tags st)) /\
  (forall s, silence_start st = Some s ->
     len rms_list - s < min_interval self ->
     exists pre c b,
       0 <= b <= s /\
       apply_slices self w (len rms_list) (sil_tags st) =
         pre ++ [Chunk c (b * hop_size self) (len rms_list * hop_size self)]).
Proof.
  intros Hscan. apply (scan_inv_of_scan self kept_nonneg) in Hscan.
  unfold scan_inv in Hscan. split; [|split].
  - intros s Hs Hlen. rewrite Hs in Hscan. destruct Hscan as (Hr & Hc & _).
    unfold trailing_silence. rewrite Hs.
    destruct (Z.geb_spec (len rms_list - s) (min_interval self)); [|lia].
    destruct (min_pos_bounds rms_list s
                (Z.min (len rms_list) (s + max_sil_kept self) + 1))
      as (p & Hp & _); [lia|lia|].
    rewrite Hp. cbn [bind]. exists p. split; [reflexivity|].
    apply (min_pos_first_min Ord); [lia|lia|exact Hp].
  - intros [Hnone|(s & Hs & Hlen)]; unfold trailing_silence.
    + rewrite Hnone. reflexivity.
    + rewrite Hs.
      destruct (Z.geb_spec (len rms_list - s) (min_interval self)); [lia|reflexivity].
  - intros s Hs Hlen. rewrite Hs in Hscan. destruct Hscan as (Hr & Hc & _).
    destruct (sil_tags st) as [|first tl] eqn:Etags.
    + exists [], w, 0. split; [lia|reflexivity].
    + destruct (@exists_last _ (first :: tl)) as (init & [lo hi] & E); [discriminate|].
      rewrite E in Hc. apply chain_snoc_inv in Hc as (Hc & Hl).
      apply chain_le in Hc.
      unfold apply_slices. cbv zeta.
      assert (last (first :: tl) first = (lo, hi)) as ->
        by (rewrite E; apply last_last).
      cbn [snd]. destruct (Z.ltb_spec hi (len rms_list)); [|lia].
      rewrite app_assoc. eexists _, _, hi. split; [lia|reflexivity].
Qed.

End TrailingCut.

(** Ten silent samples: the run opened at frame 0 is still open after the
    six frames, and the range (0, 7) is recorded.  One silent frame at the
    end of a loud clip is kept in the only chunk. *)
Lemma trailing_cut_witness :
  let L := [0; 0; 0; 0; 0; 0]%Q in
  let st := {| silence_start := Some 0; clip_start := 0; sil_tags := [] |} in
  let L' := [1; 1; 1; 0]%Q in
  let st' := {| silence_start := Some 3; clip_start := 0; sil_tags := [] |} in
  let w := Rational.mono [1; 1; 1; 1; 1; 0; 0]%Q in
  0 <= max_sil_kept Rational.wide /\
  scan Rational.small L = Ok st /\
  scan Rational.wide L' = Ok st' /\
  (exists pos,
     trailing_silence Rational.small L st = Ok ([] ++ [(pos, len L + 1)]) /\
     first_min (Num := Rational.numeric) L 0
       (Z.min (len L) (0 + max_sil_kept Rational.small) + 1) pos) /\
  trailing_silence Rational.wide L' st' = Ok [] /\
  (exists pre c b,
     0 <= b <= 3 /\
     apply_slices Rational.wide w (len L') [] =
       pre ++ [Chunk c (b * hop_size Rational.wide) (len L' * hop_size Rational.wide)]).
Proof.
  intros L st L' st' w.
  assert (0 <= max_sil_kept Rational.small) as Hk by (apply Z.leb_le; reflexivity).
  assert (0 <= max_sil_kept Rational.wide) as Hk' by (apply Z.leb_le; reflexivity).
  assert (scan Rational.small L = Ok st) as E by reflexivity.
  assert (scan Rational.wide L' = Ok st') as E' by reflexivity.
  assert (len L' - 3 < min_interval Rational.wide) as Hshort
    by (apply Z.ltb_lt; reflexivity).
  split; [exact Hk'|]. split; [exact E|]. split; [exact E'|]. split; [|split].
  - apply (proj1 (trailing_cut Rational.small rational_order Hk L st w E) 0 eq_refl).
    apply Z.ge_le_iff. apply Z.leb_le. reflexivity.
  - apply (proj1 (proj2 (trailing_cut Rational.wide rational_order Hk' L' st' w E'))).
    right. exists 3. split; [reflexivity|exact Hshort].
  - apply (proj2 (proj2 (trailing_cut Rational.wide rational_order Hk' L' st' w E'))
             3 eq_refl Hshort).
Defined.

(** ** Ties in the minimum-energy searches *)

Section TieFacts.

Context `{Num : Numeric}.
Variable self : Slicer.
Hypothesis Ord : EnergyOrder.
Hypothesis kept_nonneg : 0 <= max_sil_kept self.
Implicit Types (L : list energy) (st : scan_state).

Lemma first_min_lowest L a b p :
  first_min L a b p ->
  forall j e, a <= j < b -> item L j = Some e ->
    (forall j' e', a <= j' < b -> item L j' = Some e' -> lt e' e = false) ->
    p <= j.
Proof.
  intros (Hr & m & Hm & Hmin & Hbefore) j e Hj He Hleast.
  destruct (Z.le_gt_cases p j) as [|Hlt]; [assumption|exfalso].
  pose proof (Hbefore j e ltac:(lia) He) as Hstrict.
  pose proof (Hleast p m Hr Hm) as Hnot.
  congruence.
Qed.

(** The searches of the three branches, each over the range the source
    slices out of [rms_list]. *)
Lemma record_range_first_min L st s i st' :
  0 <= s < i -> i < len L ->
  record_range self L st s i = Ok st' ->
  let k := max_sil_kept self in
  (i - s <= k /\
   exists pos,
     first_min L s (i + 1) pos /\
     sil_tags st' = sil_tags st ++ [if s =? 0 then (0, pos) else (pos, pos)]) \/
  (k < i - s <= k * 2 /\
   exists pos pos_l pos_r,
     first_min L (i - k) (s + k + 1) pos /\
     first_min L s (s + k + 1) pos_l /\
     first_min L (i - k) (i + 1) pos_r /\
     sil_tags st' =
       sil_tags st ++
       [if s =? 0 then (0, pos_r) else (Z.min pos_l pos, Z.max pos_r pos)]) \/
  (k * 2 < i - s /\
   exists pos_l pos_r,
     first_min L s (s + k + 1) pos_l /\
     first_min L (i - k) (i + 1) pos_r /\
     sil_tags st' = sil_tags st ++ [if s =? 0 then (0, pos_r) else (pos_l, pos_r)]).
Proof.
  intros Hs Hi E k. unfold record_range in E. fold k in E.
  destruct (Z.leb_spec (i - s) k) as [Ha|Ha].
  - left. split; [exact Ha|].
    destruct (min_pos L s (i + 1)) as [p|] eqn:Hp; cbn [bind] in E; [|discriminate].
    exists p. split; [apply (min_pos_first_min Ord); [lia|lia|exact Hp]|].
    inversion E; subst st'. reflexivity.
  - destruct (Z.leb_spec (i - s) (k * 2)) as [Hb|Hb].
    + right; left. split; [lia|].
      destruct (min_pos L (i - k) (s + k + 1)) as [p|] eqn:Hp;
        cbn [bind] in E; [|discriminate].
      destruct (min_pos L s (s + k + 1)) as [pl|] eqn:Hpl;
        cbn [bind] in E; [|discriminate].
      destruct (min_pos L (i - k) (i + 1)) as [pr|] eqn:Hpr;
        cbn [bind] in E; [|discriminate].
      exists p, pl, pr.
      split; [apply (min_pos_first_min Ord); [lia|lia|exact Hp]|].
      split; [apply (min_pos_first_min Ord); [lia|lia|exact Hpl]|].
      split; [apply (min_pos_first_min Ord); [lia|lia|exact Hpr]|].
      destruct (s =? 0); inversion E; subst st'; reflexivity.
    + right; right. split; [lia|].
      destruct (min_pos L s (s + k + 1)) as [pl|] eqn:Hpl;
        cbn [bind] in E; [|discriminate].
      destruct (min_pos L (i - k) (i + 1)) as [pr|] eqn:Hpr;
        cbn [bind] in E; [|discriminate].
      exists pl, pr.
      split; [apply (min_pos_first_min Ord); [lia|lia|exact Hpl]|].
      split; [apply (min_pos_first_min Ord); [lia|lia|exact Hpr]|].
      inversion E; subst st'. reflexivity.
Qed.

(** C9. Every search for a cut position answers with the first frame of
    least energy of its range, so that among several frames of least energy
    the lowest index is chosen: in [rms_list[a:b].argmin() + a] itself, in
    the searches for [pos], [pos_l] and [pos_r] of the three branches, and in
    the search of the trailing cut. *)
Theorem ties_go_to_first_frame :
  (forall L a b pos,
     0 <= a -> 0 <= b -> min_pos L a b = Ok pos ->
     first_min L a b pos /\
     forall j e, a <= j < b -> item L j = Some e ->
       (forall j' e', a <= j' < b -> item L j' = Some e' -> lt e' e = false) ->
       pos <= j) /\
  (forall L st s i st',
     0 <= s < i -> i < len L ->
     record_range self L st s i = Ok st' ->
     let k := max_sil_kept self in
     (i - s <= k /\
      exists pos,
        first_min L s (i + 1) pos /\
        sil_tags st' = sil_tags st ++ [if s =? 0 then (0, pos) else (pos, pos)]) \/
     (k < i - s <= k * 2 /\
      exists pos pos_l pos_r,
        first_min L (i - k) (s + k + 1) pos /\
        first_min L s (s + k + 1) pos_l /\
        first_min L (i - k) (i + 1) pos_r /\
        sil_tags st' =
          sil_tags st ++
          [if s =? 0 then (0, pos_r) else (Z.min pos_l pos, Z.max pos_r pos)]) \/
     (k * 2 < i - s /\
      exists pos_l pos_r,
        first_min L s (s + k + 1) pos_l /\
        first_min L (i - k) (i + 1) pos_r /\
        sil_tags st' =
          sil_tags st ++ [if s =? 0 then (0, pos_r) else (pos_l, pos_r)])) /\
  (forall L st s ts,
     0 <= s < len L -> silence_start st = Some s ->
     trailing_silence self L st = Ok ts ->
     ts = sil_tags st \/
     exists pos,
       first_min L s (Z.min (len L) (s + max_sil_kept self) + 1) pos /\
       ts = sil_tags st ++ [(pos, len L + 1)]).
Proof.
  split; [|split].
  - intros L a b pos Ha Hb Hp.
    pose proof (min_pos_first_min Ord L a b pos Ha Hb Hp) as Hfirst.
    split; [exact Hfirst|]. exact (first_min_lowest L a b pos Hfirst).
  - exact record_range_first_min.
  - intros L st s ts Hs Hopen E. unfold trailing_silence in E. rewrite Hopen in E.
    destruct (len L - s >=? min_interval self).
    + right.
      destruct (min_pos L s _) as [p|] eqn:Hp; cbn [bind] in E; [|discriminate].
      exists p. split; [apply (min_pos_first_min Ord); [lia|lia|exact Hp]|].
      congruence.
    + left. congruence.
Qed.

End TieFacts.

(** Frames 1, 2 and 3 share the least energy of the range 0 .. 5: frame 1
    is chosen. *)
Lemma ties_go_to_first_frame_witness :
  let L := [3; 1; 1; 1; 2]%Q in
  0 <= max_sil_kept Rational.wide /\
  min_pos (Num := Rational.numeric) L 0 5 = Ok 1 /\
  first_min (Num := Rational.numeric) L 0 5 1 /\
  (forall j e, 0 <= j < 5 -> item L j = Some e ->
     (forall j' e', 0 <= j' < 5 -> item L j' = Some e' ->
        lt (Numeric := Rational.numeric) e' e = false) ->
     1 <= j).
Proof.
  intros L.
  assert (0 <= max_sil_kept Rational.wide) as Hk by (apply Z.leb_le; reflexivity).
  assert (min_pos (Num := Rational.numeric) L 0 5 = Ok 1) as E by reflexivity.
  split; [exact Hk|]. split; [exact E|].
  exact (proj1 (ties_go_to_first_frame Rational.wide rational_order Hk)
           L 0 5 1 (Z.le_refl 0) ltac:(discriminate) E).
Defined.

(** * More properties of the slicer *)

Section SlicerMore.

Context `{Num : Numeric}.
Variable self : Slicer.
Implicit Types (w : waveform) (L : list energy) (ts : list tag).

(** X1. With a non-negative number of kept silence frames, [slice] raises
    nothing of its own: the only error it can end in is the one the envelope
    computation raised, on a waveform longer than [min_length] samples.  No
    [argmin] is ever taken of an empty slice. *)
Theorem slice_raises_only_envelope_errors (w : waveform) (e : exn) :
  0 <= max_sil_kept self ->
  slice self w = Raise e ->
  min_length self < len (mono_samples w) /\
  rms (mono_samples w) (win_size self) (hop_size self) = Raise e.
Proof.
  intros Hk E. unfold slice in E.
  destruct (Z.leb_spec (len (mono_samples w)) (min_length self)); [discriminate E|].
  split; [assumption|].
  destruct (rms _ _ _) as [L|e'] eqn:Hrms; cbn [bind] in E; [|congruence].
  destruct (scan_ok self Hk L) as (st & Hscan & Inv).
  rewrite Hscan in E. cbn [bind] in E.
  destruct (trailing_silence_closed self Hk L st Inv) as (ts & Htrail & _).
  rewrite Htrail in E. cbn [bind] in E. discriminate E.
Qed.

Lemma scan_from_loud L : forall rest i st,
  (forall x, In x rest -> lt x (threshold self) = false) ->
  silence_start st = None ->
  scan_from self L i rest st = Ok st.
Proof.
  induction rest as [|x rest IH]; intros i st Hloud Hnone; [reflexivity|].
  cbn [scan_from]. unfold scan_step.
  rewrite (Hloud x (or_introl eq_refl)), Hnone. cbn [bind].
  apply IH; [intros y Hy; apply Hloud; right; exact Hy|exact Hnone].
Qed.

(** X2. A waveform longer than [min_length] samples whose envelope has no
    frame below the threshold comes back whole, as the single entry
    [[waveform, 0, total_frames * hop_size]]. *)
Theorem loud_clip_is_one_chunk (w : waveform) (L : list energy) :
  min_length self < len (mono_samples w) ->
  rms (mono_samples w) (win_size self) (hop_size self) = Ok L ->
  (forall x, In x L -> lt x (threshold self) = false) ->
  slice self w = Ok [Chunk w 0 (len L * hop_size self)].
Proof.
  intros Hlong Hrms Hloud. unfold slice.
  destruct (Z.leb_spec (len (mono_samples w)) (min_length self)); [lia|].
  rewrite Hrms. cbn [bind]. unfold scan.
  rewrite (scan_from_loud L L 0 scan_init Hloud eq_refl). reflexivity.
Qed.

Lemma chain_In l ts b lo hi :
  chain l ts b -> In (lo, hi) ts -> l <= lo /\ lo <= hi /\ hi < b.
Proof.
  revert l; induction ts as [|[lo' hi'] ts IH]; simpl; intros l H Hin; [contradiction|].
  destruct H as (H1 & H2 & H3). destruct Hin as [E|Hin].
  - inversion E; subst. apply chain_le in H3. lia.
  - destruct (IH _ H3 Hin). lia.
Qed.

Lemma chain_pairwise l ts b : chain l ts b ->
  forall i j lo1 hi1 lo2 hi2, (i < j)%nat ->
    nth_error ts i = Some (lo1, hi1) -> nth_error ts j = Some (lo2, hi2) ->
    l <= lo1 /\ lo1 <= hi1 /\ hi1 < lo2 /\ lo2 <= hi2 /\ hi2 < b.
Proof.
  revert l; induction ts as [|[lo hi] ts IH]; simpl; intros l H i j lo1 hi1 lo2 hi2 Hij Hi Hj.
  - destruct i; discriminate.
  - destruct H as (H1 & H2 & H3).
    destruct j as [|j]; [lia|]. simpl in Hj.
    destruct i as [|i]; simpl in Hi.
    + inversion Hi; subst. apply nth_error_In in Hj.
      pose proof (chain_In _ _ _ _ _ H3 Hj). lia.
    + destruct (IH _ H3 i j lo1 hi1 lo2 hi2) as (A & B); [lia|exact Hi|exact Hj|]. lia.
Qed.

End SlicerMore.

Section SlicerRanges.

Context `{Num : Numeric}.
Variable self : Slicer.
Hypothesis kept_nonneg : 0 <= max_sil_kept self.
Implicit Types (w : waveform) (L : list energy) (ts : list tag).

Lemma final_tags_chain L st ts :
  scan self L = Ok st -> trailing_silence self L st = Ok ts ->
  chain 0 ts (len L + 2) /\ forall lo hi, In (lo, hi) ts -> lo < len L.
Proof.
  intros Hscan Htrail.
  apply (scan_inv_of_scan self kept_nonneg) in Hscan.
  unfold scan_inv in Hscan. unfold trailing_silence in Htrail.
  assert (forall b, chain 0 ts b -> b <= len L ->
            chain 0 ts (len L + 2) /\ forall lo hi, In (lo, hi) ts -> lo < len L) as Hplain.
  { intros b Hc Hb. split; [apply chain_weaken with (b := b); [exact Hc|lia]|].
    intros lo hi Hin. pose proof (chain_In _ _ _ _ _ Hc Hin). lia. }
  destruct (silence_start st) as [s|].
  - destruct Hscan as (Hs & Hc & _).
    destruct (len L - s >=? min_interval self).
    + destruct (min_pos L s _) as [p|] eqn:Hp; cbn [bind] in Htrail; [|discriminate].
      apply min_pos_range in Hp as [Hp Hpl]; [|lia|lia].
      inversion Htrail; subst ts. split.
      * apply chain_snoc with (a := s); [exact Hc|lia|lia|lia].
      * intros lo hi Hin. apply in_app_or in Hin as [Hin|[E|[]]].
        -- pose proof (chain_In _ _ _ _ _ Hc Hin). lia.
        -- inversion E; subst. lia.
    + inversion Htrail; subst ts. apply (Hplain s Hc). lia.
  - inversion Htrail; subst ts. apply (Hplain (len L) Hscan). lia.
Qed.

(** X3. The ranges [slice] has recorded when it turns to cutting are proper
    and in order: each starts at a frame of the envelope with
    [0 <= lo <= hi <= total_frames + 1], and each ends strictly before the
    next one starts. *)
Theorem cut_ranges_in_order (L : list energy) (st : scan_state) (ts : list tag) :
  scan self L = Ok st -> trailing_silence self L st = Ok ts ->
  (forall lo hi, In (lo, hi) ts -> 0 <= lo <= hi /\ lo < len L /\ hi <= len L + 1) /\
  (forall i j lo1 hi1 lo2 hi2, (i < j)%nat ->
     nth_error ts i = Some (lo1, hi1) -> nth_error ts j = Some (lo2, hi2) ->
     hi1 < lo2 /\ hi1 < len L).
Proof.
  intros Hscan Htrail.
  destruct (final_tags_chain L st ts Hscan Htrail) as (Hc & Hlo).
  split.
  - intros lo hi Hin. pose proof (chain_In _ _ _ _ _ Hc Hin).
    pose proof (Hlo lo hi Hin). lia.
  - intros i j lo1 hi1 lo2 hi2 Hij Hi Hj.
    pose proof (chain_pairwise _ _ _ Hc i j lo1 hi1 lo2 hi2 Hij Hi Hj).
    pose proof (Hlo lo2 hi2 (nth_error_In _ _ Hj)). lia.
Qed.

Lemma reported_length_app (xs ys : list slice_item) :
  reported_length (xs ++ ys) = reported_length xs + reported_length ys.
Proof.
  induction xs as [|[|c s e] xs IH]; cbn [app reported_length]; lia.
Qed.

Lemma removed_frames_app total ts ts' :
  removed_frames total (ts ++ ts') = removed_frames total ts + removed_frames total ts'.
Proof.
  induction ts as [|[lo hi] ts IH]; cbn [app removed_frames]; lia.
Qed.

Lemma between_tags_cons w (t t' : tag) ts :
  between_tags self w (t :: t' :: ts) =
    Chunk (_apply_slice self w (snd t) (fst t'))
          (snd t * hop_size self) (fst t' * hop_size self)
    :: between_tags self w (t' :: ts).
Proof. reflexivity. Qed.

Lemma between_tags_length w total : forall rest l lo hi lo' hi' b,
  chain l ((lo, hi) :: rest ++ [(lo', hi')]) b -> lo' < total ->
  reported_length (between_tags self w ((lo, hi) :: rest ++ [(lo', hi')]))
  + removed_frames total rest * hop_size self
  = (lo' - hi) * hop_size self.
Proof.
  induction rest as [|[a c] rest IH]; intros l lo hi lo' hi' b H Hlt.
  - cbn. lia.
  - change (((a, c) :: rest) ++ [(lo', hi')]) with ((a, c) :: rest ++ [(lo', hi')]) in *.
    rewrite between_tags_cons. cbn [fst snd reported_length removed_frames].
    destruct H as (H1 & H2 & H3).
    pose proof (IH _ _ _ _ _ _ H3 Hlt) as IH'.
    assert (c < lo') as Hc.
    { assert (In (lo', hi') (rest ++ [(lo', hi')])) as Hin
        by (apply in_or_app; right; left; reflexivity).
      destruct H3 as (_ & _ & H3). pose proof (chain_In _ _ _ _ _ H3 Hin). lia. }
    rewrite Z.min_l by lia.
    rewrite ?Z.mul_add_distr_r, ?Z.mul_sub_distr_r in *.
    unfold tag in *. lia.
Qed.

(** X4. Past the early return nothing is lost and nothing is counted twice:
    the lengths the returned chunks report and the frames of the recorded
    ranges, times [hop_size], add up to [total_frames * hop_size]. *)
Theorem chunks_and_ranges_tile (w : waveform) (items : list slice_item) :
  min_length self < len (mono_samples w) ->
  slice self w = Ok items ->
  exists L st ts,
    rms (mono_samples w) (win_size self) (hop_size self) = Ok L /\
    scan self L = Ok st /\
    trailing_silence self L st = Ok ts /\
    reported_length items + removed_frames (len L) ts * hop_size self
    = len L * hop_size self.
Proof.
  intros Hlong E.
  destruct (slice_scanned self w items E Hlong) as (L & st & ts & Hrms & Hscan & Htrail & ->).
  exists L, st, ts. repeat split; try assumption.
  pose proof (scan_inv_of_scan self kept_nonneg L st Hscan) as Inv.
  destruct (trailing_silence_closed self kept_nonneg L st Inv) as (ts' & Htrail' & Hc).
  assert (ts' = ts) as -> by congruence. clear Htrail'.
  destruct Hc as [->|(init & lo & hi & -> & Hc & Hlh & Hlt)]; [cbn; lia|].
  unfold apply_slices.
  destruct (init ++ [(lo, hi)]) as [|first tl] eqn:Ets;
    [destruct init; discriminate Ets|].
  assert (@last tag (first :: tl) first = (lo, hi)) as Hlast
    by (rewrite <- Ets; apply last_last).
  cbv zeta. rewrite Hlast. cbn [fst snd]. rewrite <- Ets.
  rewrite !reported_length_app, removed_frames_app.
  cbn [removed_frames].
  assert (reported_length
            (if hi <? len L
             then [Chunk (_apply_slice self w hi (len L))
                     (hi * hop_size self) (len L * hop_size self)]
             else [])
          = (len L - Z.min hi (len L)) * hop_size self) as ->.
  { destruct (Z.ltb_spec hi (len L)); cbn [reported_length]; [rewrite Z.min_l|rewrite Z.min_r]; lia. }
  destruct init as [|[lo0 hi0] init].
  - cbn in Ets. inversion Ets; subst first tl. cbn [fst between_tags app reported_length removed_frames].
    cbn in Hc.
    destruct (Z.gtb_spec lo 0); cbn [reported_length];
      [|assert (lo = 0) as -> by lia]; ring.
  - change (((lo0, hi0) :: init) ++ [(lo, hi)])
      with ((lo0, hi0) :: init ++ [(lo, hi)]) in *.
    inversion Ets; subst first tl. cbn [fst removed_frames].
    assert (chain 0 ((lo0, hi0) :: init ++ [(lo, hi)]) (hi + 1)) as Hall.
    { change ((lo0, hi0) :: init ++ [(lo, hi)])
        with (((lo0, hi0) :: init) ++ [(lo, hi)]).
      apply chain_snoc with (a := lo); [exact Hc|lia|lia|lia]. }
    pose proof (between_tags_length w (len L) _ _ _ _ _ _ _ Hall Hlt) as Hmid.
    pose proof Hc as (H0 & H1 & Hrest). apply chain_le in Hrest.
    rewrite (Z.min_l hi0) by lia.
    assert (reported_length (between_tags self w ((lo0, hi0) :: init ++ [(lo, hi)]))
            = (lo - hi0) * hop_size self
              - removed_frames (len L) init * hop_size self) as ->
      by (rewrite <- Hmid; ring).
    destruct (Z.gtb_spec lo0 0); cbn [reported_length];
      [|assert (lo0 = 0) as -> by lia]; ring.
Qed.

End SlicerRanges.

Section SlicerChunks.

Context `{Num : Numeric}.
Variable self : Slicer.
Implicit Types (w : waveform) (y : list sample).

Lemma len_cons {A : Type} (x : A) (l : list A) : len (x :: l) = len l + 1.
Proof. unfold len. cbn [List.length]. lia. Qed.

(** X5. A chunk cut between the frames [begin <= end] holds
    [min(n, end * hop_size) - min(n, begin * hop_size)] samples per channel,
    [n] being the length of the waveform: never more than the
    [end * hop_size - begin * hop_size] reported with it, and exactly as many
    when [end * hop_size] does not pass the end of the waveform. *)
Theorem chunk_length_within_report (w : waveform) (begin end_ : Z) :
  0 <= hop_size self -> 0 <= begin <= end_ ->
  let n := num_samples w in
  let chunk := _apply_slice self w begin end_ in
  num_samples chunk
    = Z.min n (end_ * hop_size self) - Z.min n (begin * hop_size self) /\
  num_samples chunk <= end_ * hop_size self - begin * hop_size self /\
  (end_ * hop_size self <= n ->
   num_samples chunk = end_ * hop_size self - begin * hop_size self).
Proof.
  intros Hhop Hbe n chunk.
  assert (0 <= begin * hop_size self <= end_ * hop_size self) as Hmul by nia.
  assert (0 <= n) as Hn by (destruct w; cbn; apply len_nonneg).
  assert (num_samples chunk
          = Z.min n (end_ * hop_size self) - Z.min n (begin * hop_size self)) as Hlen.
  { subst chunk n. clear Hn.
    destruct w as [y|[|c0 cs]]; cbn [_apply_slice num_samples].
    - pose proof (len_nonneg y). rewrite len_py_slice by lia. lia.
    - unfold shape1. cbn [map hd]. change (len (@nil sample)) with 0. lia.
    - pose proof (len_nonneg c0). cbn [map]. unfold shape1. cbn [hd].
      rewrite len_py_slice by lia. lia. }
  split; [exact Hlen|]. split; lia.
Qed.

Lemma unpack_all_chunks (xs : list slice_item) :
  Forall is_chunk xs ->
  exists us, unpack_all xs = Ok us /\ List.length us = List.length xs.
Proof.
  induction 1 as [|x xs Hx _ (us & IH & Hlen)].
  - exists []. split; reflexivity.
  - destruct x as [w|c s e]; [contradiction|].
    exists (Entries c s e :: us). cbn [unpack_all unpack bind].
    rewrite IH. cbn [bind List.length]. split; [reflexivity|lia].
Qed.

(** X6. What the loop [for chunk, start, end in list_slicer] of
    [transcribe_all] makes of the result for a one-dimensional waveform.
    Past the early return every element is unpacked.  On the early return
    the loop raises [ValueError], the waveform being neither a
    [[chunk, start, end]] list nor three values, unless it has exactly three
    samples: those are then taken for chunk, start and end. *)
Theorem unpacking_the_result (y : list sample) :
  (min_length self < len y ->
   forall items, slice self (Mono y) = Ok items ->
     exists us, unpack_all items = Ok us /\ List.length us = List.length items) /\
  (len y <= min_length self -> len y <> 3 ->
   exists msg,
     (items <- slice self (Mono y) ;; unpack_all items) = Raise (ValueError msg)) /\
  (len y <= min_length self -> len y = 3 ->
   exists a b c, y = [a; b; c] /\
     (items <- slice self (Mono y) ;; unpack_all items) = Ok [Samples a b c]).
Proof.
  split; [|split].
  - intros Hlong items E.
    apply unpack_all_chunks.
    destruct (slice_scanned self (Mono y) items E Hlong) as (L & st & ts & _ & _ & _ & ->).
    apply apply_slices_chunks.
  - intros Hshort Hne. rewrite (slice_early self (Mono y) Hshort). cbn [bind unpack_all].
    destruct y as [|a [|b [|c [|d y]]]]; cbn [unpack bind]; eauto.
    exfalso. apply Hne. reflexivity.
  - intros Hshort H3. rewrite (slice_early self (Mono y) Hshort). cbn [bind unpack_all].
    destruct y as [|a [|b [|c [|d y]]]].
    1-3: cbn in H3; lia.
    + exists a, b, c. split; reflexivity.
    + rewrite !len_cons in H3. pose proof (len_nonneg y). lia.
Qed.

End SlicerChunks.

(** ** The frame counts of a constructed slicer *)

Lemma py_round_floor (x : Q) : Qfloor x <= py_round x <= Qfloor x + 1.
Proof.
  unfold py_round. destruct (Qcompare _ _); [destruct (Z.even _)|..]; lia.
Qed.

Lemma py_round_mono (x y : Q) : (x <= y)%Q -> py_round x <= py_round y.
Proof.
  intros Hxy.
  pose proof (Qfloor_resp_le x y Hxy) as Hf.
  destruct (Z.eq_dec (Qfloor x) (Qfloor y)) as [E|E].
  - unfold py_round. rewrite E.
    destruct (Qcompare_spec (x - inject_Z (Qfloor y)) (1 # 2)) as [H1|H1|H1];
    destruct (Qcompare_spec (y - inject_Z (Qfloor y)) (1 # 2)) as [H2|H2|H2];
      try (destruct (Z.even (Qfloor y))); try lia; exfalso; lra.
  - pose proof (py_round_floor x). pose proof (py_round_floor y). lia.
Qed.

Lemma py_round_upper (x : Q) : (inject_Z (py_round x) <= x + (1 # 2))%Q.
Proof.
  unfold py_round.
  pose proof (Qfloor_le x) as Hlo.
  destruct (Qcompare_spec (x - inject_Z (Qfloor x)) (1 # 2)) as [H|H|H];
    [destruct (Z.even (Qfloor x))|..];
    rewrite ?inject_Z_plus; change (inject_Z 1) with 1%Q; lra.
Qed.

Lemma py_round_above_half (x : Q) : 1 <= py_round x -> ((1 # 2) < x)%Q.
Proof.
  intros H. apply Qnot_le_lt. intros Hle.
  pose proof (py_round_mono x (1 # 2) Hle) as Hm.
  change (py_round (1 # 2)) with 0 in Hm. lia.
Qed.

Lemma py_round_pos (x : Q) : ((1 # 2) < x)%Q -> 1 <= py_round x.
Proof.
  intros Hx.
  assert (1 = py_round 1) as -> by reflexivity.
  destruct (Qlt_le_dec x 1) as [Hlt|Hge]; [|apply py_round_mono; exact Hge].
  assert (Qfloor x = 0) as Hf.
  { pose proof (Qfloor_resp_le 0 x ltac:(lra)) as H0.
    pose proof (Qfloor_resp_le x 1 ltac:(lra)) as H1.
    change (Qfloor 0) with 0 in H0. change (Qfloor 1) with 1 in H1.
    destruct (Z.eq_dec (Qfloor x) 1) as [E|E]; [|lia].
    pose proof (Qfloor_le x) as Hle. rewrite E in Hle.
    change (inject_Z 1) with 1%Q in Hle. lra. }
  unfold py_round. rewrite Hf. change (inject_Z 0) with 0%Q.
  destruct (Qcompare_spec (x - 0) (1 # 2)) as [H|H|H]; [exfalso; lra|exfalso; lra|].
  reflexivity.
Qed.

(** X7. A slicer built for a positive sampling rate and a positive hop has
    working frame counts: a hop of at least one sample, a window of one to
    four hops, and the millisecond orderings carried over to frames, with
    [min_length >= min_interval >= 1] and [max_sil_kept >= 1]. *)
Theorem constructed_frame_counts `{Num : Numeric}
    (sr : Z) (db : Q) (ml mi hop msk : Z) (self : Slicer) :
  0 < sr -> 0 < hop ->
  __init__ sr db ml mi hop msk = Ok self ->
  1 <= hop_size self /\
  hop_size self <= win_size self <= 4 * hop_size self /\
  1 <= min_interval self <= min_length self /\
  1 <= max_sil_kept self.
Proof.
  intros Hsr Hhop E.
  destruct (init_fields sr db ml mi hop msk self E)
    as ((H1 & H2) & H3 & _ & Hh & Hnz & Hwin & Hml & Hmi & Hms).
  set (X := (inject_Z (sr * hop) / 1000)%Q) in *.
  assert (forall a b, a <= b ->
            (inject_Z (sr * a) / 1000 <= inject_Z (sr * b) / 1000)%Q) as Hmono.
  { intros a b Hab. unfold Qdiv. change (/ 1000)%Q with (1 # 1000)%Q.
    assert (inject_Z (sr * a) <= inject_Z (sr * b))%Q by (rewrite <- Zle_Qle; nia).
    lra. }
  assert (0 <= X)%Q as HX0.
  { unfold X, Qdiv. change (/ 1000)%Q with (1 # 1000)%Q.
    assert (inject_Z 0 <= inject_Z (sr * hop))%Q by (rewrite <- Zle_Qle; nia).
    change (inject_Z 0) with 0%Q in *. lra. }
  assert (1 <= hop_size self) as Hh1.
  { pose proof (py_round_nonneg X HX0). lia. }
  pose proof (py_round_above_half X ltac:(lia)) as HXhalf.
  pose proof (py_round_upper X) as Hup. rewrite <- Hh in Hup.
  assert (0 < inject_Z (hop_size self))%Q as Hq.
  { change 0%Q with (inject_Z 0). rewrite <- Zlt_Qlt. lia. }
  assert (forall a, hop <= a ->
            1 <= py_round (inject_Z (sr * a) / 1000 / inject_Z (hop_size self))) as Hone.
  { intros a Ha. apply py_round_pos. apply Qlt_shift_div_l; [exact Hq|].
    pose proof (Hmono hop a Ha) as Hle. fold X in Hle. lra. }
  split; [exact Hh1|]. split; [|split].
  - rewrite Hwin.
    assert (hop_size self <= py_round (inject_Z (sr * mi) / 1000)).
    { rewrite Hh. apply py_round_mono. apply Hmono. lia. }
    lia.
  - rewrite Hmi, Hml. split; [apply Hone; lia|].
    apply py_round_mono. unfold Qdiv at 1 3.
    apply Qmult_le_compat_r; [apply Hmono; lia|].
    apply Qinv_le_0_compat. apply Qlt_le_weak. exact Hq.
  - rewrite Hms. apply Hone. lia.
Qed.

(** * Properties of the text side *)

(** ** [format_seconds_to_hms] *)

Lemma Qfloor_unique (x : Q) (z : Z) :
  (inject_Z z <= x)%Q -> (x < inject_Z (z + 1))%Q -> Qfloor x = z.
Proof.
  intros Hlo Hhi.
  pose proof (Qfloor_resp_le _ _ Hlo) as H1. rewrite Qfloor_Z in H1.
  pose proof (Qfloor_le x) as H2.
  assert (inject_Z (Qfloor x) < inject_Z (z + 1))%Q as H3 by lra.
  rewrite <- Zlt_Qlt in H3. lia.
Qed.

Lemma Qfloor_div (x : Q) (m : Z) :
  0 < m -> Qfloor (x / inject_Z m) = Qfloor x / m.
Proof.
  intros Hm.
  pose proof (Qfloor_le x) as Hlo. pose proof (Qlt_floor x) as Hhi.
  pose proof (Z.div_mod (Qfloor x) m ltac:(lia)) as Hdm.
  pose proof (Z.mod_pos_bound (Qfloor x) m Hm) as Hr.
  assert (0 < inject_Z m)%Q as Hq
    by (change 0%Q with (inject_Z 0); rewrite <- Zlt_Qlt; exact Hm).
  apply Qfloor_unique.
  - apply Qle_shift_div_l; [exact Hq|].
    rewrite <- inject_Z_mult.
    assert (inject_Z (Qfloor x / m * m) <= inject_Z (Qfloor x))%Q
      by (rewrite <- Zle_Qle; lia).
    lra.
  - apply Qlt_shift_div_r; [exact Hq|].
    rewrite <- inject_Z_mult.
    assert (inject_Z (Qfloor x + 1) <= inject_Z ((Qfloor x / m + 1) * m))%Q
      by (rewrite <- Zle_Qle; lia).
    lra.
Qed.

Lemma Qfloor_minus_Z (x : Q) (k : Z) : Qfloor (x - inject_Z k) = Qfloor x - k.
Proof.
  pose proof (Qfloor_le x) as Hlo. pose proof (Qlt_floor x) as Hhi.
  apply Qfloor_unique.
  - unfold Z.sub. rewrite inject_Z_plus, inject_Z_opp. lra.
  - replace (Qfloor x - k + 1) with (Qfloor x + 1 + - k) by lia.
    rewrite inject_Z_plus, inject_Z_opp. lra.
Qed.

Lemma int_nonneg (x : Q) : (0 <= x)%Q -> PyStr.int x = Qfloor x.
Proof.
  intros Hx. unfold PyStr.int.
  destruct (Qle_bool 0 x) eqn:E; [reflexivity|].
  apply Qle_bool_iff in Hx. congruence.
Qed.

Lemma mod_floor (x : Q) (m : Z) :
  0 < m ->
  PyStr.mod_ x m = (x - inject_Z (m * (Qfloor x / m)))%Q /\
  (0 <= PyStr.mod_ x m)%Q /\
  Qfloor (PyStr.mod_ x m) = Qfloor x mod m.
Proof.
  intros Hm. unfold PyStr.mod_.
  rewrite Qfloor_div by exact Hm. rewrite <- inject_Z_mult.
  split; [reflexivity|].
  pose proof (Qfloor_le x) as Hlo.
  pose proof (Z.div_mod (Qfloor x) m ltac:(lia)) as Hdm.
  pose proof (Z.mod_pos_bound (Qfloor x) m Hm) as Hr.
  split.
  - assert (inject_Z (m * (Qfloor x / m)) <= inject_Z (Qfloor x))%Q
      by (rewrite <- Zle_Qle; lia).
    lra.
  - rewrite Qfloor_minus_Z. lia.
Qed.

Lemma hms_fields (seconds : Q) :
  (0 <= seconds)%Q ->
  let n := Qfloor seconds in
  let '(hours, minutes, rest) := hours_minutes_seconds seconds in
  0 <= n /\ hours = n / 3600 /\ minutes = n mod 3600 / 60 /\
  PyStr.int rest = n mod 60.
Proof.
  intros Hs n. unfold hours_minutes_seconds.
  assert (0 <= n) as Hn.
  { subst n. change 0 with (Qfloor 0). apply Qfloor_resp_le. exact Hs. }
  destruct (mod_floor seconds 3600 ltac:(lia)) as (_ & H3600 & F3600).
  destruct (mod_floor seconds 60 ltac:(lia)) as (_ & H60 & F60).
  fold n in F3600, F60.
  split; [exact Hn|]. split; [|split].
  - rewrite int_nonneg.
    + change 3600%Q with (inject_Z 3600). apply Qfloor_div. lia.
    + apply Qle_shift_div_l; lra.
  - rewrite int_nonneg.
    + change 60%Q with (inject_Z 60). rewrite Qfloor_div by lia. rewrite F3600.
      reflexivity.
    + apply Qle_shift_div_l; lra.
  - rewrite (int_nonneg _ H60). exact F60.
Qed.

(** X8. For a duration that is not negative the three fields are the hours,
    minutes and seconds of its whole part: minutes and seconds stay below
    60, and hours * 3600 + minutes * 60 + seconds gives back the duration
    with its fraction dropped. *)
Theorem hms_recompose (seconds : Q) :
  (0 <= seconds)%Q ->
  let '(hours, minutes, rest) := hours_minutes_seconds seconds in
  hours * 3600 + minutes * 60 + PyStr.int rest = Qfloor seconds /\
  0 <= hours /\ 0 <= minutes < 60 /\ 0 <= PyStr.int rest < 60.
Proof.
  intros Hs. pose proof (hms_fields seconds Hs) as H. cbv zeta in H.
  destruct (hours_minutes_seconds seconds) as [[hours minutes] rest].
  destruct H as (Hn & -> & -> & ->).
  set (n := Qfloor seconds) in *.
  pose proof (Z.div_mod n 3600 ltac:(lia)) as D1.
  pose proof (Z.mod_pos_bound n 3600 ltac:(lia)) as B1.
  pose proof (Z.div_mod (n mod 3600) 60 ltac:(lia)) as D2.
  pose proof (Z.mod_pos_bound (n mod 3600) 60 ltac:(lia)) as B2.
  pose proof (Z.mod_pos_bound n 60 ltac:(lia)) as B3.
  assert ((n mod 3600) mod 60 = n mod 60) as Hmm.
  { apply Z.mod_mod_divide. exists 60. reflexivity. }
  assert (0 <= n / 3600) by (apply Z.div_pos; lia).
  assert (0 <= n mod 3600 / 60 < 60).
  { split; [apply Z.div_pos; lia|apply Z.div_lt_upper_bound; lia]. }
  repeat split; lia.
Qed.

Lemma hms_recompose_witness :
  (0 <= 7384 + (1 # 2))%Q /\
  let '(hours, minutes, rest) := hours_minutes_seconds (7384 + (1 # 2)) in
  hours * 3600 + minutes * 60 + PyStr.int rest = Qfloor (7384 + (1 # 2)) /\
  0 <= hours /\ 0 <= minutes < 60 /\ 0 <= PyStr.int rest < 60.
Proof.
  assert (0 <= 7384 + (1 # 2))%Q as H by (apply Qle_bool_iff; reflexivity).
  split; [exact H|]. exact (hms_recompose (7384 + (1 # 2)) H).
Defined.

Lemma format_02d_two_digits (n : Z) :
  0 <= n < 100 ->
  PyStr.format_02d n = [(48 + Z.to_N (n / 10))%N; (48 + Z.to_N (n mod 10))%N].
Proof.
  intros Hn.
  assert (forall k : nat, (k < 100)%nat ->
            PyStr.format_02d (Z.of_nat k)
            = [(48 + Z.to_N (Z.of_nat k / 10))%N; (48 + Z.to_N (Z.of_nat k mod 10))%N])
    as Hall.
  { intros k Hk.
    do 100 (destruct k as [|k]; [vm_compute; reflexivity|]). lia. }
  rewrite <- (Z2Nat.id n) by lia. apply Hall. lia.
Qed.

(** X9. Below a hundred hours the text is always eight characters,
    [HH:MM:SS], each field two decimal digits: the tens and the units of the
    hours, minutes and seconds of the duration with its fraction dropped. *)
Theorem format_seconds_to_hms_fixed_width (seconds : Q) :
  (0 <= seconds)%Q -> (seconds < 360000)%Q ->
  let n := Qfloor seconds in
  let two (k : Z) := [(48 + Z.to_N (k / 10))%N; (48 + Z.to_N (k mod 10))%N] in
  format_seconds_to_hms seconds
  = two (n / 3600) ++ lit ":" ++ two (n mod 3600 / 60) ++ lit ":" ++ two (n mod 60).
Proof.
  intros Hs Hlt n two.
  pose proof (hms_fields seconds Hs) as H. cbv zeta in H.
  unfold format_seconds_to_hms.
  destruct (hours_minutes_seconds seconds) as [[hours minutes] rest].
  destruct H as (Hn0 & -> & -> & ->). fold n. fold n in Hn0.
  assert (n < 360000) as Hn.
  { subst n. pose proof (Qfloor_le seconds) as Hf.
    assert (inject_Z (Qfloor seconds) < inject_Z 360000)%Q as Hq
      by (change (inject_Z 360000) with 360000%Q; lra).
    rewrite <- Zlt_Qlt in Hq. exact Hq. }
  assert (0 <= n / 3600) by (apply Z.div_pos; lia).
  assert (n / 3600 < 100) by (apply Z.div_lt_upper_bound; lia).
  pose proof (Z.mod_pos_bound n 3600 ltac:(lia)).
  assert (0 <= n mod 3600 / 60 < 60)
    by (split; [apply Z.div_pos; lia|apply Z.div_lt_upper_bound; lia]).
  pose proof (Z.mod_pos_bound n 60 ltac:(lia)).
  rewrite !format_02d_two_digits by lia.
  reflexivity.
Qed.

Lemma format_seconds_to_hms_fixed_width_witness :
  (0 <= 7384 + (1 # 2))%Q /\ (7384 + (1 # 2) < 360000)%Q /\
  format_seconds_to_hms (7384 + (1 # 2)) = lit "02:03:04".
Proof.
  assert (0 <= 7384 + (1 # 2))%Q as H0 by (apply Qle_bool_iff; reflexivity).
  assert (7384 + (1 # 2) < 360000)%Q as H1 by reflexivity.
  split; [exact H0|]. split; [exact H1|].
  exact (format_seconds_to_hms_fixed_width (7384 + (1 # 2)) H0 H1).
Defined.

(** ** Strings *)

Lemma str_eqb_eq (a b : str) : PyStr.eqb a b = true <-> a = b.
Proof.
  revert b; induction a as [|x a IH]; intros [|y b]; cbn [PyStr.eqb];
    try (split; [discriminate|discriminate]); [tauto|].
  rewrite andb_true_iff, N.eqb_eq, IH. split.
  - intros [-> ->]. reflexivity.
  - intros E. inversion E. auto.
Qed.

Lemma str_eqb_refl (a : str) : PyStr.eqb a a = true.
Proof. apply str_eqb_eq. reflexivity. Qed.

Lemma startswith_app (p x : str) : PyStr.startswith (p ++ x) p = true.
Proof.
  induction p as [|c p IH]; [destruct x; reflexivity|].
  cbn [app PyStr.startswith]. rewrite N.eqb_refl, IH. reflexivity.
Qed.

Lemma startswith_inv (s p : str) :
  PyStr.startswith s p = true -> exists r, s = p ++ r.
Proof.
  revert s; induction p as [|c p IH]; intros s H.
  - exists s. reflexivity.
  - destruct s as [|d s]; [discriminate H|]. cbn [PyStr.startswith] in H.
    apply andb_true_iff in H as [E H]. apply N.eqb_eq in E. subst d.
    destruct (IH s H) as [r ->]. exists r. reflexivity.
Qed.

Lemma endswith_app (a b : str) : PyStr.endswith (a ++ b) b = true.
Proof. unfold PyStr.endswith. rewrite rev_app_distr. apply startswith_app. Qed.

Lemma endswith_inv (s suffix : str) :
  PyStr.endswith s suffix = true -> exists a, s = a ++ suffix.
Proof.
  unfold PyStr.endswith. intros H. apply startswith_inv in H as [r H].
  exists (rev r). rewrite <- (rev_involutive s), H, rev_app_distr, rev_involutive.
  reflexivity.
Qed.

Lemma endswith_app_l (x s suffix : str) :
  PyStr.endswith s suffix = true -> PyStr.endswith (x ++ s) suffix = true.
Proof.
  intros H. apply endswith_inv in H as [a ->].
  rewrite app_assoc. apply endswith_app.
Qed.

Lemma join_endswith (a b suffix : str) :
  PyStr.endswith b suffix = true -> PyStr.endswith (OsPath.join a b) suffix = true.
Proof.
  intros H. unfold OsPath.join.
  destruct (PyStr.startswith b (lit "/")); [exact H|].
  destruct (match a with [] => true | _ => PyStr.endswith a (lit "/") end).
  - apply endswith_app_l. exact H.
  - rewrite app_assoc. apply endswith_app_l. exact H.
Qed.

(** ** [get_correct_audio_path] *)

Section AudioPathFacts.

Variable exists_ : str -> bool.
Implicit Types (audio_input base_path : str) (formats : list str).

Lemma first_existing_spec audio_input base_path first formats p :
  first_existing exists_ audio_input base_path first formats = Returned p ->
  exists ext, (In ext formats \/ first = Some ext) /\
              p = OsPath.join base_path (audio_input ++ lit "." ++ ext).
Proof.
  induction formats as [|ext rest IH]; cbn [first_existing].
  - destruct first as [ext|]; [|discriminate].
    intros E; inversion E. exists ext. auto.
  - destruct (exists_ _).
    + intros E; inversion E. exists ext. split; [left; left|]; reflexivity.
    + intros E. destruct (IH E) as (ext' & [Hin|Hf] & ->); exists ext'; split;
        try reflexivity; [left; right; exact Hin|right; exact Hf].
Qed.

(** X10. The answer is [None] exactly for an absolute path that has no
    supported extension: no case of the function takes it up. *)
Theorem audio_path_none_iff audio_input base_path formats :
  get_correct_audio_path exists_ audio_input base_path formats = Returned None
  <-> OsPath.isabs audio_input = true /\
      has_supported_extension formats audio_input = false.
Proof.
  unfold get_correct_audio_path.
  destruct (OsPath.isabs audio_input), (has_supported_extension formats audio_input);
    cbn [andb negb].
  - split; [discriminate|intros [_ H]; discriminate H].
  - tauto.
  - split; [discriminate|intros [H _]; discriminate H].
  - split; [|intros [H _]; discriminate H].
    destruct (first_existing _ _ _ _ _); discriminate.
Qed.

(** X11. A path that is returned always ends in a dot and one of the
    supported formats. *)
Theorem audio_path_has_supported_extension audio_input base_path formats p :
  get_correct_audio_path exists_ audio_input base_path formats = Returned (Some p) ->
  has_supported_extension formats p = true.
Proof.
  unfold get_correct_audio_path.
  destruct (OsPath.isabs audio_input);
  destruct (has_supported_extension formats audio_input) eqn:Hext;
    cbn [andb negb]; intros E; try discriminate E.
  - inversion E; subst p. exact Hext.
  - inversion E; subst p. unfold has_supported_extension in *.
    apply existsb_exists in Hext as (ext & Hin & Hend).
    apply existsb_exists. exists ext. split; [exact Hin|].
    apply join_endswith. exact Hend.
  - destruct (first_existing _ _ _ _ _) as [q|] eqn:Hq; [|discriminate E].
    cbn [and_then] in E. inversion E; subst q.
    apply first_existing_spec in Hq as (ext & Hin & ->).
    apply existsb_exists. exists ext. split.
    + destruct Hin as [Hin|Hf]; [exact Hin|].
      destruct formats; [discriminate Hf|]. inversion Hf. left. reflexivity.
    + apply join_endswith. apply endswith_app.
Qed.

Lemma first_existing_found audio_input base_path first pre ext post :
  (forall e, In e pre ->
     exists_ (OsPath.join base_path (audio_input ++ lit "." ++ e)) = false) ->
  exists_ (OsPath.join base_path (audio_input ++ lit "." ++ ext)) = true ->
  first_existing exists_ audio_input base_path first (pre ++ ext :: post)
  = Returned (OsPath.join base_path (audio_input ++ lit "." ++ ext)).
Proof.
  intros Hpre Hext. induction pre as [|e pre IH]; cbn [app first_existing].
  - rewrite Hext. reflexivity.
  - rewrite (Hpre e (or_introl eq_refl)). apply IH.
    intros e' He'. apply Hpre. right. exact He'.
Qed.

Lemma first_existing_none audio_input base_path first formats :
  (forall e, In e formats ->
     exists_ (OsPath.join base_path (audio_input ++ lit "." ++ e)) = false) ->
  first_existing exists_ audio_input base_path first formats
  = match first with
    | Some ext => Returned (OsPath.join base_path (audio_input ++ lit "." ++ ext))
    | None => Raised IndexError
    end.
Proof.
  intros Hnone. induction formats as [|e formats IH]; cbn [first_existing].
  - reflexivity.
  - rewrite (Hnone e (or_introl eq_refl)). apply IH.
    intros e' He'. apply Hnone. right. exact He'.
Qed.

(** X12. A bare name, neither absolute nor ending in a supported
    extension, is looked for under [base_path] with each format in turn.
    The first candidate that exists is returned; when none exists the
    candidate of the first format is returned all the same; and with no
    format at all the function stops on [IndexError]. *)
Theorem audio_path_for_bare_name audio_input base_path formats :
  OsPath.isabs audio_input = false ->
  has_supported_extension formats audio_input = false ->
  let candidate ext := OsPath.join base_path (audio_input ++ lit "." ++ ext) in
  (forall pre ext post,
     formats = pre ++ ext :: post ->
     (forall e, In e pre -> exists_ (candidate e) = false) ->
     exists_ (candidate ext) = true ->
     get_correct_audio_path exists_ audio_input base_path formats
     = Returned (Some (candidate ext))) /\
  (forall ext rest,
     formats = ext :: rest ->
     (forall e, In e formats -> exists_ (candidate e) = false) ->
     get_correct_audio_path exists_ audio_input base_path formats
     = Returned (Some (candidate ext))) /\
  (formats = [] ->
   get_correct_audio_path exists_ audio_input base_path formats = Raised IndexError).
Proof.
  intros Habs Hext candidate. unfold get_correct_audio_path.
  rewrite Habs, Hext. cbn [andb negb]. split; [|split].
  - intros pre ext post -> Hpre Hfound.
    rewrite (first_existing_found _ _ _ pre ext post Hpre Hfound). reflexivity.
  - intros ext rest -> Hnone.
    rewrite (first_existing_none _ _ _ _ Hnone). reflexivity.
  - intros ->. reflexivity.
Qed.

End AudioPathFacts.

(** ** Splitting and joining *)

Lemma split_nonempty (s : str) (sep : N) : PyStr.split s sep <> [].
Proof.
  destruct s as [|c s]; cbn [PyStr.split]; [discriminate|].
  destruct (c =? sep)%N; [discriminate|].
  destruct (PyStr.split s sep); discriminate.
Qed.

Lemma split_length (s : str) (sep : N) :
  List.length (PyStr.split s sep) = S (count_occ N.eq_dec s sep).
Proof.
  induction s as [|c s IH]; [reflexivity|].
  cbn [PyStr.split count_occ].
  destruct (N.eqb_spec c sep) as [->|Hne].
  - destruct (N.eq_dec sep sep); [|contradiction]. cbn [List.length]. rewrite IH. reflexivity.
  - destruct (N.eq_dec c sep); [contradiction|].
    destruct (PyStr.split s sep) as [|piece pieces] eqn:E; [discriminate IH|].
    exact IH.
Qed.

Lemma split_pieces_free (s : str) (sep : N) :
  forall piece, In piece (PyStr.split s sep) -> ~ In sep piece.
Proof.
  induction s as [|c s IH]; cbn [PyStr.split].
  - intros piece [<-|[]] [].
  - destruct (N.eqb_spec c sep) as [->|Hne].
    + intros piece [<-|Hin]; [intros []|apply IH; exact Hin].
    + destruct (PyStr.split s sep) as [|piece0 pieces] eqn:E.
      * exfalso. exact (split_nonempty s sep E).
      * intros piece [<-|Hin].
        -- intros [Hc|Hin]; [congruence|]. apply (IH piece0); [left; reflexivity|exact Hin].
        -- apply IH. right. exact Hin.
Qed.

Lemma split_free (a : str) (sep : N) : ~ In sep a -> PyStr.split a sep = [a].
Proof.
  induction a as [|c a IH]; intros Hfree; [reflexivity|].
  cbn [PyStr.split].
  destruct (N.eqb_spec c sep) as [->|Hne]; [exfalso; apply Hfree; left; reflexivity|].
  rewrite IH; [reflexivity|]. intros Hin. apply Hfree. right. exact Hin.
Qed.

Lemma split_app (a b : str) (sep : N) :
  ~ In sep a -> PyStr.split (a ++ sep :: b) sep = a :: PyStr.split b sep.
Proof.
  induction a as [|c a IH]; intros Hfree.
  - cbn [app PyStr.split]. rewrite N.eqb_refl. reflexivity.
  - cbn [app PyStr.split].
    destruct (N.eqb_spec c sep) as [->|Hne]; [exfalso; apply Hfree; left; reflexivity|].
    rewrite IH; [reflexivity|]. intros Hin. apply Hfree. right. exact Hin.
Qed.

Lemma join_cons (sep piece : str) (pieces : list str) :
  pieces <> [] ->
  PyStr.join sep (piece :: pieces) = piece ++ sep ++ PyStr.join sep pieces.
Proof. destruct pieces; [congruence|reflexivity]. Qed.

Lemma join_split (s : str) (sep : N) : PyStr.join [sep] (PyStr.split s sep) = s.
Proof.
  induction s as [|c s IH]; [reflexivity|].
  cbn [PyStr.split].
  destruct (N.eqb_spec c sep) as [->|Hne].
  - rewrite join_cons by apply split_nonempty. rewrite IH. reflexivity.
  - destruct (PyStr.split s sep) as [|piece [|piece' pieces]] eqn:E.
    + exfalso. exact (split_nonempty s sep E).
    + cbn in *. congruence.
    + rewrite join_cons in * by discriminate. cbn [app] in *. congruence.
Qed.

Lemma split_join (pieces : list str) (sep : N) :
  pieces <> [] -> (forall piece, In piece pieces -> ~ In sep piece) ->
  PyStr.split (PyStr.join [sep] pieces) sep = pieces.
Proof.
  induction pieces as [|piece pieces IH]; [congruence|].
  intros _ Hfree. destruct pieces as [|piece' pieces].
  - cbn [PyStr.join]. apply split_free. apply Hfree. left. reflexivity.
  - rewrite join_cons by discriminate. cbn [app].
    rewrite split_app by (apply Hfree; left; reflexivity).
    rewrite IH; [reflexivity|discriminate|].
    intros p Hp. apply Hfree. right. exact Hp.
Qed.

(** X13. [vocab_count] answers with the number of commas in the text plus
    one: never with zero, the empty text counting for one symbol. *)
Theorem vocab_count_commas (text : str) :
  vocab_count text = PyStr.of_nat (S (count_occ N.eq_dec text comma)) /\
  vocab_count [] = lit "1".
Proof.
  split; [|reflexivity]. unfold vocab_count. rewrite split_length. reflexivity.
Qed.

(** ** What is written for the segments is read back *)



Lemma metadata_rows_nil : metadata_rows [] = [].
Proof. reflexivity. Qed.


Section TranscribeFacts.

Variable isspace : N -> bool.




End TranscribeFacts.

(** ** The loop of [create_metadata] *)

Section CreateMetadataFacts.

Variable exists_ : str -> bool.
Variable isfile : str -> bool.
Variable get_audio_duration : str -> option Q.
Variable convert_char_to_pinyin : str -> list str.
Variable isspace : N -> bool.

Lemma audio_path_default (name base_path : str) :
  (OsPath.isabs name = true /\
   has_supported_extension supported_formats name = false /\
   get_correct_audio_path exists_ name base_path supported_formats = Returned None)
  \/
  (~ (OsPath.isabs name = true /\
      has_supported_extension supported_formats name = false) /\
   exists p,
     get_correct_audio_path exists_ name base_path supported_formats
     = Returned (Some p)).
Proof.
  unfold get_correct_audio_path.
  destruct (OsPath.isabs name), (has_supported_extension supported_formats name);
    cbn [andb negb].
  - right. split; [intros [_ H]; discriminate H|eauto].
  - left. auto.
  - right. split; [intros [H _]; discriminate H|eauto].
  - right. split; [intros [H _]; discriminate H|].
    destruct (first_existing exists_ name base_path
                (hd_error supported_formats) supported_formats) as [p|e] eqn:E.
    + exists p. reflexivity.
    + exfalso. revert E. generalize supported_formats at 2 as formats.
      induction formats as [|ext rest IH]; cbn [first_existing hd_error supported_formats map].
      * discriminate.
      * destruct (exists_ _); [discriminate|exact IH].
Qed.


Lemma total_snoc (durations : list Q) (d : Q) :
  (total (durations ++ [d]) == total durations + d)%Q.
Proof.
  induction durations as [|x durations IH]; cbn [app total fold_right].
  - ring.
  - fold (total (durations ++ [d])). fold (total durations). rewrite IH. ring.
Qed.


Lemma Qltb_false (a b : Q) : Qltb a b = false <-> (b <= a)%Q.
Proof. unfold Qltb. rewrite negb_false_iff. apply Qle_bool_iff. Qed.

Lemma add_error_ok (st : prepared) (file_audio : str) (why : string) :
  prepared_ok st -> prepared_ok (add_error st file_audio why).
Proof. intros H. exact H. Qed.

(** One line: a line without two fields changes nothing; a line with two
    fields either stops the loop on [TypeError], its name being an absolute
    path without a supported extension, or adds one entry, to the kept lists
    or to [error_files]. *)
Lemma create_metadata_line_cases (ch_tokenizer : bool) (path_project_wavs : str)
    (st : prepared) (line : str) :
  prepared_ok st ->
  match row_of line with
  | [] =>
      create_metadata_line exists_ isfile get_audio_duration convert_char_to_pinyin
        isspace ch_tokenizer path_project_wavs st line = Returned st
  | row :: _ =>
      (unresolvable row /\
       create_metadata_line exists_ isfile get_audio_duration convert_char_to_pinyin
         isspace ch_tokenizer path_project_wavs st line = Raised TypeError)
      \/
      (~ unresolvable row /\
       exists st',
         create_metadata_line exists_ isfile get_audio_duration convert_char_to_pinyin
           isspace ch_tokenizer path_project_wavs st line = Returned st' /\
         prepared_ok st' /\
         (List.length (text_list st') + List.length (error_files st')
          = S (List.length (text_list st) + List.length (error_files st)))%nat)
  end.
Proof.
  intros Hok. unfold row_of, create_metadata_line.
  destruct (PyStr.split line pipe) as [|name_audio [|text [|x rest]]]; try reflexivity.
  unfold unresolvable. cbn [fst].
  destruct (audio_path_default name_audio path_project_wavs)
    as [(Habs & Hext & ->)|(Hres & p & ->)]; cbn [and_then].
  { left. auto. }
  right. split; [exact Hres|].
  assert (forall why,
            prepared_ok (add_error st p why) /\
            (List.length (text_list (add_error st p why))
             + List.length (error_files (add_error st p why))
             = S (List.length (text_list st) + List.length (error_files st)))%nat)
    as Herr.
  { intros why. split; [exact Hok|]. cbn. rewrite length_app. cbn. lia. }
  destruct (isfile p); cbn [negb]; [|eexists; split; [reflexivity|apply Herr]].
  destruct (get_audio_duration p) as [duration|];
    [|eexists; split; [reflexivity|apply Herr]].
  destruct (Qltb duration 1) eqn:Hlow; destruct (Qltb 30 duration) eqn:Hhigh;
    cbn [orb].
  - exfalso. unfold Qltb in *. apply negb_true_iff in Hlow, Hhigh.
    assert (~ (1 <= duration)%Q) by (rewrite <- Qle_bool_iff; congruence).
    assert (~ (duration <= 30)%Q) by (rewrite <- Qle_bool_iff; congruence).
    lra.
  - eexists; split; [reflexivity|apply Herr].
  - eexists; split; [reflexivity|apply Herr].
  - destruct (len text <? 3); [eexists; split; [reflexivity|apply Herr]|].
    eexists; split; [reflexivity|].
    apply Qltb_false in Hlow, Hhigh.
    destruct Hok as (H1 & H2 & H3 & H4 & H5).
    split; [|cbn; rewrite length_app; cbn; lia].
    unfold prepared_ok. cbn. rewrite !length_app. cbn.
    repeat split; try lia.
    + apply in_app_or in H as [H|[<-|[]]]; [apply (H4 d H)|exact Hlow].
    + apply in_app_or in H as [H|[<-|[]]]; [apply (H4 d H)|exact Hhigh].
    + rewrite total_snoc, H5. reflexivity.
Qed.

Lemma create_metadata_lines_returned (ch_tokenizer : bool) (path_project_wavs : str)
    (lines : list str) : forall st st',
  prepared_ok st ->
  create_metadata_lines exists_ isfile get_audio_duration convert_char_to_pinyin
    isspace ch_tokenizer path_project_wavs st lines = Returned st' ->
  prepared_ok st' /\
  (List.length (text_list st') + List.length (error_files st')
   = List.length (text_list st) + List.length (error_files st)
     + List.length (flat_map row_of lines))%nat /\
  forall row, In row (flat_map row_of lines) -> ~ unresolvable row.
Proof.
  induction lines as [|line lines IH]; intros st st' Hok E; cbn [create_metadata_lines] in E.
  - inversion E; subst st'. cbn. split; [exact Hok|]. split; [lia|tauto].
  - pose proof (create_metadata_line_cases ch_tokenizer path_project_wavs st line Hok)
      as Hline.
    cbn [flat_map]. destruct (row_of line) as [|row rows] eqn:Hrow.
    + rewrite Hline in E. cbn [and_then] in E. exact (IH st st' Hok E).
    + assert (rows = []) as ->.
      { unfold row_of in Hrow.
        destruct (PyStr.split line pipe) as [|a [|b [|c r]]]; inversion Hrow; reflexivity. }
      destruct Hline as [(_ & Hraise)|(Hres & st1 & Hret & Hok1 & Hcount)].
      * rewrite Hraise in E. discriminate E.
      * rewrite Hret in E. cbn [and_then] in E.
        destruct (IH st1 st' Hok1 E) as (Hok' & Hcount' & Hall).
        split; [exact Hok'|]. split; [cbn [app List.length]; lia|].
        intros r [<-|Hin]; [exact Hres|exact (Hall r Hin)].
Qed.

Lemma create_metadata_lines_raised (ch_tokenizer : bool) (path_project_wavs : str)
    (lines : list str) : forall st e,
  prepared_ok st ->
  create_metadata_lines exists_ isfile get_audio_duration convert_char_to_pinyin
    isspace ch_tokenizer path_project_wavs st lines = Raised e ->
  e = TypeError /\ exists row, In row (flat_map row_of lines) /\ unresolvable row.
Proof.
  induction lines as [|line lines IH]; intros st e Hok E; cbn [create_metadata_lines] in E.
  - discriminate E.
  - pose proof (create_metadata_line_cases ch_tokenizer path_project_wavs st line Hok)
      as Hline.
    cbn [flat_map]. destruct (row_of line) as [|row rows] eqn:Hrow.
    + rewrite Hline in E. cbn [and_then] in E. exact (IH st e Hok E).
    + destruct Hline as [(Hun & Hraise)|(Hres & st1 & Hret & Hok1 & Hcount)].
      * rewrite Hraise in E. cbn [and_then] in E. inversion E.
        split; [reflexivity|]. exists row. split; [left; reflexivity|exact Hun].
      * rewrite Hret in E. cbn [and_then] in E.
        destruct (IH st1 e Hok1 E) as (He & r & Hin & Hun).
        split; [exact He|]. exists r. split; [|exact Hun].
        apply in_or_app. right. exact Hin.
Qed.

Lemma nothing_prepared_ok : prepared_ok nothing_prepared.
Proof.
  unfold prepared_ok. cbn. repeat split; tauto.
Qed.

(** X15. When the loop of [create_metadata] comes to its end, every row of
    the metadata file is accounted for exactly once: it is among the kept
    entries or among [error_files].  The kept lists go together entry by
    entry, every kept duration lies between 1 and 30 seconds, and [lenght]
    is the sum of the kept durations. *)
Theorem create_metadata_accounts_for_rows (ch_tokenizer : bool)
    (path_project_wavs data : str) (st : prepared) :
  create_metadata_scan exists_ isfile get_audio_duration convert_char_to_pinyin
    isspace ch_tokenizer path_project_wavs data = Returned st ->
  (List.length (text_list st) + List.length (error_files st)
   = List.length (metadata_rows data))%nat /\
  List.length (audio_path_list st) = List.length (text_list st) /\
  List.length (duration_list st) = List.length (text_list st) /\
  List.length (result_ st) = List.length (text_list st) /\
  (forall d, In d (duration_list st) -> (1 <= d)%Q /\ (d <= 30)%Q) /\
  (lenght st == total (duration_list st))%Q.
Proof.
  intros E. unfold create_metadata_scan in E.
  destruct (create_metadata_lines_returned _ _ _ _ _ nothing_prepared_ok E)
    as (Hok & Hcount & _).
  split; [exact Hcount|exact Hok].
Qed.

(** X16. The loop of [create_metadata] stops on an exception exactly when
    some row of the metadata file names an absolute path without a
    supported extension: [get_correct_audio_path] answers [None] for it and
    [os.path.isfile(None)] raises [TypeError].  Nothing else stops it. *)
Theorem create_metadata_stops_on_unresolvable (ch_tokenizer : bool)
    (path_project_wavs data : str) :
  (exists e,
     create_metadata_scan exists_ isfile get_audio_duration convert_char_to_pinyin
       isspace ch_tokenizer path_project_wavs data = Raised e)
  <-> exists row, In row (metadata_rows data) /\ unresolvable row.
Proof.
  unfold create_metadata_scan, metadata_rows. split.
  - intros [e E].
    destruct (create_metadata_lines_raised _ _ _ _ _ nothing_prepared_ok E) as (_ & H).
    exact H.
  - intros (row & Hin & Hun).
    destruct (create_metadata_lines exists_ isfile get_audio_duration
                convert_char_to_pinyin isspace ch_tokenizer path_project_wavs
                nothing_prepared (PyStr.split data newline)) as [st|e] eqn:E.
    + destruct (create_metadata_lines_returned _ _ _ _ _ nothing_prepared_ok E)
        as (_ & _ & Hall).
      exfalso. exact (Hall row Hin Hun).
    + exists e. reflexivity.
Qed.

End CreateMetadataFacts.

(** ** The vocabulary *)

Lemma mem_In (x : str) (xs : list str) : PyStr.mem x xs = true <-> In x xs.
Proof.
  unfold PyStr.mem. rewrite existsb_exists. split.
  - intros (y & Hin & E). apply str_eqb_eq in E. subst y. exact Hin.
  - intros Hin. exists x. split; [exact Hin|apply str_eqb_refl].
Qed.

Lemma mem_false (x : str) (xs : list str) : PyStr.mem x xs = false <-> ~ In x xs.
Proof.
  rewrite <- mem_In. destruct (PyStr.mem x xs); split; congruence.
Qed.

Lemma remove_free (s : str) (c : N) : ~ In c s -> PyStr.remove s c = s.
Proof.
  induction s as [|x s IH]; intros Hfree; [reflexivity|].
  cbn [PyStr.remove filter].
  destruct (N.eqb_spec x c) as [->|Hne]; [exfalso; apply Hfree; left; reflexivity|].
  cbn [negb]. f_equal. apply IH. intros Hin. apply Hfree. right. exact Hin.
Qed.

Lemma split_snoc_sep (a : str) (sep : N) :
  PyStr.split (a ++ [sep]) sep = PyStr.split a sep ++ [[]].
Proof.
  induction a as [|c a IH]; cbn [app PyStr.split].
  - rewrite N.eqb_refl. reflexivity.
  - destruct (c =? sep)%N; rewrite IH; [reflexivity|].
    destruct (PyStr.split a sep) as [|piece pieces] eqn:E; [|reflexivity].
    exfalso. exact (split_nonempty a sep E).
Qed.

Lemma join_app (sep : str) (xs ys : list str) :
  xs <> [] -> ys <> [] ->
  PyStr.join sep (xs ++ ys) = PyStr.join sep xs ++ sep ++ PyStr.join sep ys.
Proof.
  intros Hx Hy. induction xs as [|x xs IH]; [congruence|].
  destruct xs as [|x' xs].
  - cbn [app]. rewrite join_cons by exact Hy. reflexivity.
  - change ((x :: x' :: xs) ++ ys) with (x :: (x' :: xs) ++ ys).
    rewrite join_cons by discriminate. rewrite IH by discriminate.
    rewrite (join_cons sep x (x' :: xs)) by discriminate.
    rewrite <- !app_assoc. reflexivity.
Qed.

Lemma join_lines (lines : list str) :
  PyStr.join [newline] (lines ++ [[]])
  = flat_map (fun line => line ++ [newline]) lines.
Proof.
  induction lines as [|line lines IH]; [reflexivity|].
  change ((line :: lines) ++ [[]]) with (line :: lines ++ [[]]).
  rewrite join_cons by (destruct lines; discriminate).
  rewrite IH. cbn [flat_map]. rewrite <- app_assoc. reflexivity.
Qed.

Lemma miss_symbols_of_In (vocab symbols : list str) (x : str) :
  In x (miss_symbols_of vocab symbols) <->
  exists item, In item symbols /\ x = PyStr.remove item space /\ ~ In x vocab.
Proof.
  induction symbols as [|item symbols IH]; cbn [miss_symbols_of].
  - split; [intros []|intros (item & [] & _)].
  - destruct (PyStr.mem (PyStr.remove item space) vocab) eqn:Hmem.
    + rewrite IH. split.
      * intros (i & Hin & Hx). exists i. split; [right; exact Hin|exact Hx].
      * intros (i & [<-|Hin] & Hx & Hnot).
        -- exfalso. apply Hnot. apply mem_In. rewrite Hx. exact Hmem.
        -- exists i. auto.
    + cbn [In]. rewrite IH. split.
      * intros [<-|(i & Hin & Hx)].
        -- exists item. split; [left; reflexivity|]. split; [reflexivity|].
           apply mem_false. exact Hmem.
        -- exists i. split; [right; exact Hin|exact Hx].
      * intros (i & [<-|Hin] & Hx & Hnot); [left; symmetry; exact Hx|].
        right. exists i. auto.
Qed.

Lemma miss_symbols_of_all (vocab symbols : list str) :
  (forall item, In item symbols -> ~ In space item /\ ~ In item vocab) ->
  miss_symbols_of vocab symbols = symbols.
Proof.
  induction symbols as [|item symbols IH]; intros H; [reflexivity|].
  cbn [miss_symbols_of].
  destruct (H item (or_introl eq_refl)) as (Hsp & Hnot).
  rewrite (remove_free item space Hsp).
  apply mem_false in Hnot. rewrite Hnot. f_equal.
  apply IH. intros i Hi. apply H. right. exact Hi.
Qed.

(** X17. [vocab_extend] never answers ["Symbols to extend not found."]:
    splitting the symbols at the commas always leaves at least one piece, so
    the test that guards this answer cannot succeed. *)
Theorem vocab_extend_never_symbols_not_found (file_vocab : str)
    (vocab_file : option str) (vocab_old : option nat) (symbols : str) :
  answer (vocab_extend file_vocab vocab_file vocab_old symbols)
  <> Returned (lit "Symbols to extend not found.").
Proof.
  unfold vocab_extend.
  destruct (PyStr.eqb symbols []); [cbn; discriminate|].
  destruct vocab_file as [data|]; [|cbn; discriminate].
  destruct (PyStr.split symbols comma) as [|item items] eqn:E.
  { exfalso. exact (split_nonempty symbols comma E). }
  destruct (miss_symbols_of _ _); [cbn; discriminate|].
  cbn [answer]. destruct vocab_old; cbn; discriminate.
Qed.

(** What is written when something is missing. *)
Lemma vocab_extend_written (file_vocab data : str) (vocab_old : option nat)
    (symbols : str) :
  symbols <> [] ->
  miss_symbols_of (PyStr.split data newline) (PyStr.split symbols comma) <> [] ->
  written (vocab_extend file_vocab (Some data) vocab_old symbols)
  = Some (PyStr.join [newline]
            (removelast (PyStr.split data newline)
             ++ miss_symbols_of (PyStr.split data newline) (PyStr.split symbols comma)
             ++ [[]])).
Proof.
  intros Hs Hmiss. unfold vocab_extend.
  destruct (PyStr.eqb symbols []) eqn:E; [apply str_eqb_eq in E; contradiction|].
  destruct (PyStr.split symbols comma) as [|item items] eqn:Esplit.
  { exfalso. exact (split_nonempty symbols comma Esplit). }
  destruct (miss_symbols_of _ _); [contradiction|]. reflexivity.
Qed.

(** X18. When the pretrained vocabulary ends with a line break, the
    vocabulary written for the project is that text followed by one line
    per missing symbol: every old token keeps its line.  If moreover no
    symbol holds a line break, the vocabulary grows by as many lines as
    there are missing symbols, the number of rows [expand_model_embeddings]
    is asked to add. *)
Theorem vocab_extend_appends (file_vocab body : str) (vocab_old : option nat)
    (symbols : str) :
  let data := body ++ [newline] in
  let miss_symbols :=
    miss_symbols_of (PyStr.split data newline) (PyStr.split symbols comma) in
  symbols <> [] -> miss_symbols <> [] ->
  written (vocab_extend file_vocab (Some data) vocab_old symbols)
  = Some (data ++ flat_map (fun symbol => symbol ++ [newline]) miss_symbols) /\
  (~ In newline symbols ->
   forall text,
     written (vocab_extend file_vocab (Some data) vocab_old symbols) = Some text ->
     (List.length (PyStr.split text newline)
      = List.length (PyStr.split data newline) + List.length miss_symbols)%nat).
Proof.
  intros data miss_symbols Hs Hmiss.
  pose proof (vocab_extend_written file_vocab data vocab_old symbols Hs Hmiss) as Hw.
  fold miss_symbols in Hw.
  assert (PyStr.split data newline = PyStr.split body newline ++ [[]]) as Hsplit
    by apply split_snoc_sep.
  rewrite Hsplit, removelast_last in Hw.
  split.
  - refine (eq_trans Hw _). f_equal.
    rewrite join_app;
      [|apply split_nonempty|destruct miss_symbols; discriminate].
    rewrite join_split, join_lines. subst data. rewrite <- app_assoc. reflexivity.
  - intros Hfree text Htext.
    assert (Some text = Some (PyStr.join [newline]
                                (PyStr.split body newline ++ miss_symbols ++ [[]])))
      as Heq by (rewrite <- Htext; exact Hw).
    inversion Heq; subst text.
    rewrite split_join.
    + rewrite Hsplit, !length_app. cbn [List.length]. lia.
    + intros E. apply app_eq_nil in E as [_ E]. apply app_eq_nil in E as [_ E].
      discriminate E.
    + intros piece Hin Hnl.
      apply in_app_or in Hin as [Hin|Hin];
        [exact (split_pieces_free body newline piece Hin Hnl)|].
      apply in_app_or in Hin as [Hin|[<-|[]]]; [|exact Hnl].
      apply miss_symbols_of_In in Hin as (item & Hitem & -> & _).
      apply Hfree.
      assert (In newline item) as Hi.
      { unfold PyStr.remove in Hnl. apply filter_In in Hnl. tauto. }
      rewrite <- (join_split symbols comma).
      clear - Hitem Hi. revert Hitem.
      generalize (PyStr.split symbols comma) as pieces.
      induction pieces as [|piece pieces IH]; [intros []|].
      intros [->|Hin].
      * destruct pieces; [exact Hi|].
        rewrite join_cons by discriminate. apply in_or_app. left. exact Hi.
      * destruct pieces as [|p ps]; [destruct Hin|].
        rewrite join_cons by discriminate. apply in_or_app. right.
        apply in_or_app. right. exact (IH Hin).
Qed.

Section VocabFacts.

Variable convert_char_to_pinyin : str -> list str.
Variable isspace : N -> bool.

Lemma miss_in_text_spec (vocab : list str) (text : list str) : forall miss0,
  NoDup miss0 ->
  NoDup (miss_in_text vocab miss0 text) /\
  (exists added,
     miss_in_text vocab miss0 text = miss0 ++ added /\
     forall t, In t added -> In t text /\ ~ In t vocab) /\
  (forall t, In t text -> In t vocab \/ In t (miss_in_text vocab miss0 text)).
Proof.
  induction text as [|t text IH]; intros miss0 Hnd; cbn [miss_in_text].
  - split; [exact Hnd|]. split; [|intros t []].
    exists []. rewrite app_nil_r. split; [reflexivity|intros m []].
  - destruct (PyStr.mem t vocab) eqn:Hv; cbn [negb andb];
      [|destruct (PyStr.mem t miss0) eqn:Hm; cbn [negb]].
    + destruct (IH miss0 Hnd) as (H1 & (added & Hadd & Hsound) & Hcomp).
      split; [exact H1|]. split.
      * exists added. split; [exact Hadd|].
        intros m Hm. destruct (Hsound m Hm) as (Hin & Hnot).
        split; [right; exact Hin|exact Hnot].
      * intros t' [<-|Hin]; [left; apply mem_In; exact Hv|exact (Hcomp t' Hin)].
    + destruct (IH miss0 Hnd) as (H1 & (added & Hadd & Hsound) & Hcomp).
      split; [exact H1|]. split.
      * exists added. split; [exact Hadd|].
        intros m Hm'. destruct (Hsound m Hm') as (Hin & Hnot).
        split; [right; exact Hin|exact Hnot].
      * intros t' [<-|Hin]; [|exact (Hcomp t' Hin)].
        right. rewrite Hadd. apply in_or_app. left. apply mem_In. exact Hm.
    + apply mem_false in Hv, Hm.
      assert (NoDup (miss0 ++ [t])) as Hnd'.
      { apply NoDup_app; [exact Hnd|repeat constructor; intros []|].
        intros x Hx [<-|[]]. exact (Hm Hx). }
      destruct (IH (miss0 ++ [t]) Hnd') as (H1 & (added & Hadd & Hsound) & Hcomp).
      split; [exact H1|]. split.
      * exists (t :: added). split; [rewrite Hadd, <- app_assoc; reflexivity|].
        intros m [<-|Hm'].
        -- split; [left; reflexivity|exact Hv].
        -- destruct (Hsound m Hm') as (Hin & Hnot).
           split; [right; exact Hin|exact Hnot].
      * intros t' [<-|Hin]; [|exact (Hcomp t' Hin)].
        right. rewrite Hadd. apply in_or_app. left. apply in_or_app. right.
        left. reflexivity.
Qed.

Lemma miss_in_rows_spec (tokenizer_type : str) (vocab : list str)
    (rows : list (str * str)) : forall miss0,
  NoDup miss0 ->
  NoDup (fold_left
           (fun miss_symbols row =>
              miss_in_text vocab miss_symbols
                (checked_text convert_char_to_pinyin isspace tokenizer_type (snd row)))
           rows miss0) /\
  (exists added,
     fold_left
       (fun miss_symbols row =>
          miss_in_text vocab miss_symbols
            (checked_text convert_char_to_pinyin isspace tokenizer_type (snd row)))
       rows miss0 = miss0 ++ added /\
     forall t, In t added ->
       ~ In t vocab /\
       exists row,
         In row rows /\
         In t (checked_text convert_char_to_pinyin isspace tokenizer_type (snd row))) /\
  (forall row t,
     In row rows ->
     In t (checked_text convert_char_to_pinyin isspace tokenizer_type (snd row)) ->
     In t vocab \/
     In t (fold_left
             (fun miss_symbols row =>
                miss_in_text vocab miss_symbols
                  (checked_text convert_char_to_pinyin isspace tokenizer_type (snd row)))
             rows miss0)).
Proof.
  induction rows as [|row rows IH]; intros miss0 Hnd; cbn [fold_left].
  - split; [exact Hnd|]. split; [|intros row t []].
    exists []. rewrite app_nil_r. split; [reflexivity|intros m []].
  - destruct (miss_in_text_spec vocab
                (checked_text convert_char_to_pinyin isspace tokenizer_type (snd row))
                miss0 Hnd)
      as (Hnd1 & (added1 & Hadd1 & Hsound1) & Hcomp1).
    destruct (IH _ Hnd1) as (Hnd2 & (added2 & Hadd2 & Hsound2) & Hcomp2).
    split; [exact Hnd2|]. split.
    + exists (added1 ++ added2). split; [rewrite Hadd2, Hadd1, app_assoc; reflexivity|].
      intros m Hm. apply in_app_or in Hm as [Hm|Hm].
      * destruct (Hsound1 m Hm) as (Hin & Hnot).
        split; [exact Hnot|]. exists row. split; [left; reflexivity|exact Hin].
      * destruct (Hsound2 m Hm) as (Hnot & r & Hr & Hin).
        split; [exact Hnot|]. exists r. split; [right; exact Hr|exact Hin].
    + intros r t [<-|Hr] Hin; [|exact (Hcomp2 r t Hr Hin)].
      destruct (Hcomp1 t Hin) as [Hv|Hm]; [left; exact Hv|].
      right. rewrite Hadd2. apply in_or_app. left. exact Hm.
Qed.

Lemma miss_in_text_none (vocab : list str) (text : list str) (miss0 : list str) :
  (forall t, In t text -> In t vocab) ->
  miss_in_text vocab miss0 text = miss0.
Proof.
  induction text as [|t text IH]; intros Hall; [reflexivity|].
  cbn [miss_in_text].
  assert (PyStr.mem t vocab = true) as ->
    by (apply mem_In; apply Hall; left; reflexivity).
  cbn [negb andb]. apply IH. intros t' Ht'. apply Hall. right. exact Ht'.
Qed.

Lemma miss_in_rows_none (tokenizer_type : str) (vocab : list str)
    (rows : list (str * str)) :
  (forall row t,
     In row rows ->
     In t (checked_text convert_char_to_pinyin isspace tokenizer_type (snd row)) ->
     In t vocab) ->
  miss_in_rows convert_char_to_pinyin isspace tokenizer_type vocab rows = [].
Proof.
  unfold miss_in_rows. induction rows as [|row rows IH]; intros Hall; [reflexivity|].
  cbn [fold_left]. rewrite miss_in_text_none.
  - apply IH. intros r t Hr Ht. apply (Hall r t); [right; exact Hr|exact Ht].
  - intros t Ht. apply (Hall row t); [left; reflexivity|exact Ht].
Qed.

(** X19. With both files at hand, what [vocab_check] hands on is the list
    of missing symbols joined by commas.  The list has no repetition; each
    of its symbols is a token of some checked transcript (a character, when
    the tokenizer is not [pinyin]) that is no line of the vocabulary; and
    every token of every checked transcript is a line of the vocabulary or
    one of the listed symbols.  The message is
    ["You can train using your language !"] exactly when nothing is
    missing. *)
Theorem vocab_check_reports_missing (file_vocab file_metadata : str)
    (vocab_data metadata : str) (tokenizer_type : str) :
  let vocab := PyStr.split vocab_data newline in
  let rows := metadata_rows metadata in
  let text_of row := checked_text convert_char_to_pinyin isspace tokenizer_type (snd row) in
  let answer :=
    vocab_check convert_char_to_pinyin isspace file_vocab file_metadata
      (Some vocab_data) (Some metadata) tokenizer_type in
  exists miss_symbols,
    snd answer = PyStr.join [comma] miss_symbols /\
    NoDup miss_symbols /\
    (forall t, In t miss_symbols ->
       ~ In t vocab /\ exists row, In row rows /\ In t (text_of row)) /\
    (forall row t, In row rows -> In t (text_of row) ->
       In t vocab \/ In t miss_symbols) /\
    (fst answer = lit "You can train using your language !" <-> miss_symbols = []).
Proof.
  intros vocab rows text_of answer.
  destruct (miss_in_rows_spec tokenizer_type vocab rows [] (NoDup_nil _))
    as (Hnd & (added & Hadd & Hsound) & Hcomp).
  exists (miss_in_rows convert_char_to_pinyin isspace tokenizer_type vocab rows).
  subst answer text_of. unfold vocab_check. fold vocab rows.
  unfold miss_in_rows in *.
  split; [|split; [exact Hnd|split; [|split; [exact Hcomp|]]]].
  - destruct (fold_left _ rows []); reflexivity.
  - rewrite Hadd. exact Hsound.
  - destruct (fold_left _ rows []); cbn [fst]; split; try reflexivity; discriminate.
Qed.

(** X20. Checking, then extending.  Let the pretrained vocabulary end with
    a line break and let [vocab_check] find symbols missing, none of them
    holding a comma, a space or a line break.  Then [vocab_extend], given the
    missing symbols as [vocab_check] hands them on, writes a vocabulary that
    covers the transcripts: the check of [vocab_check], made against the
    written text in place of the pretrained one, finds nothing missing. *)
Theorem checking_after_extending (file_vocab file_metadata body metadata : str)
    (tokenizer_type : str) (vocab_old : option nat) :
  let data := body ++ [newline] in
  let miss_symbols :=
    miss_in_rows convert_char_to_pinyin isspace tokenizer_type
      (PyStr.split data newline) (metadata_rows metadata) in
  let vocab_miss :=
    snd (vocab_check convert_char_to_pinyin isspace file_vocab file_metadata
           (Some data) (Some metadata) tokenizer_type) in
  miss_symbols <> [] ->
  (forall t, In t miss_symbols ->
     ~ In comma t /\ ~ In space t /\ ~ In newline t) ->
  exists text,
    written (vocab_extend file_vocab (Some data) vocab_old vocab_miss) = Some text /\
    vocab_check convert_char_to_pinyin isspace file_vocab file_metadata
      (Some text) (Some metadata) tokenizer_type
    = (lit "You can train using your language !", []).
Proof.
  intros data miss_symbols vocab_miss Hne Hfree.
  set (vocab := PyStr.split data newline) in *.
  set (rows := metadata_rows metadata) in *.
  destruct (miss_in_rows_spec tokenizer_type vocab rows [] (NoDup_nil _))
    as (_ & (added & Hadd & Hsound) & Hcomp).
  cbn [app] in Hadd. change (fold_left _ rows []) with miss_symbols in Hadd, Hcomp.
  rewrite <- Hadd in Hsound. clear added Hadd.
  assert (vocab = PyStr.split body newline ++ [[]]) as Hvocab
    by apply split_snoc_sep.
  assert (forall t, In t miss_symbols -> t <> []) as Hfull.
  { intros t Ht ->. destruct (Hsound [] Ht) as (Hnot & _). apply Hnot.
    rewrite Hvocab. apply in_or_app. right. left. reflexivity. }
  assert (vocab_miss = PyStr.join [comma] miss_symbols) as Hvm.
  { subst vocab_miss. unfold vocab_check. fold vocab rows miss_symbols.
    destruct miss_symbols; [contradiction|reflexivity]. }
  assert (PyStr.split vocab_miss comma = miss_symbols) as Hsplit.
  { rewrite Hvm. apply split_join; [exact Hne|].
    intros t Ht. exact (proj1 (Hfree t Ht)). }
  assert (vocab_miss <> []) as Hsym.
  { rewrite Hvm. destruct miss_symbols as [|t ts] eqn:E; [contradiction|].
    pose proof (Hfull t (or_introl eq_refl)) as Ht.
    destruct t as [|c t]; [contradiction|].
    destruct ts; [discriminate|]. rewrite join_cons by discriminate. discriminate. }
  assert (miss_symbols_of vocab (PyStr.split vocab_miss comma) = miss_symbols) as Hmiss.
  { rewrite Hsplit. apply miss_symbols_of_all.
    intros t Ht. split; [exact (proj1 (proj2 (Hfree t Ht)))|exact (proj1 (Hsound t Ht))]. }
  exists (PyStr.join [newline] (PyStr.split body newline ++ miss_symbols ++ [[]])).
  split.
  - refine (eq_trans (vocab_extend_written file_vocab data vocab_old vocab_miss Hsym _) _).
    + fold vocab. rewrite Hmiss. exact Hne.
    + fold vocab. rewrite Hmiss, Hvocab, removelast_last. reflexivity.
  - unfold vocab_check. rewrite split_join.
    + rewrite miss_in_rows_none; [reflexivity|].
      intros row t Hrow Ht. fold rows in Hrow.
      destruct (Hcomp row t Hrow Ht) as [Hv|Hm].
      * rewrite Hvocab in Hv. apply in_app_or in Hv as [Hv|[<-|[]]].
        -- apply in_or_app. left. exact Hv.
        -- apply in_or_app. right. apply in_or_app. right. left. reflexivity.
      * apply in_or_app. right. apply in_or_app. left. exact Hm.
    + intros E. apply app_eq_nil in E as [_ E]. apply app_eq_nil in E as [_ E].
      discriminate E.
    + intros piece Hin Hnl.
      apply in_app_or in Hin as [Hin|Hin];
        [exact (split_pieces_free body newline piece Hin Hnl)|].
      apply in_app_or in Hin as [Hin|[<-|[]]]; [|exact Hnl].
      exact (proj2 (proj2 (Hfree piece Hin)) Hnl).
Qed.

End VocabFacts.

(** * Worked instances

    Each property above that rests on assumptions is applied here to a
    small input on which the assumptions hold. *)

(** A slicer with a hop of zero samples: the envelope computation refuses
    it, and that is the error [slice] ends in. *)
Lemma slice_raises_only_envelope_errors_witness :
  let self := @Build_Slicer Rational.numeric (1 # 100)%Q 0 0 4 1 1 in
  let w := Rational.mono [1; 1; 1; 1; 1]%Q in
  0 <= max_sil_kept self /\
  slice self w = Raise ParameterError /\
  min_length self < len (mono_samples w) /\
  rms (mono_samples w) (win_size self) (hop_size self) = Raise ParameterError.
Proof.
  intros self w.
  assert (0 <= max_sil_kept self) as Hk by (apply Z.leb_le; reflexivity).
  assert (slice self w = Raise ParameterError) as E by reflexivity.
  split; [exact Hk|]. split; [exact E|].
  exact (slice_raises_only_envelope_errors self w ParameterError Hk E).
Defined.

(** Six loud samples: four frames, one chunk. *)
Lemma loud_clip_is_one_chunk_witness :
  let w := Rational.mono [1; 1; 1; 1; 1; 1]%Q in
  let L := [1; 1; 1; 1]%Q in
  min_length Rational.small < len (mono_samples w) /\
  rms (mono_samples w) (win_size Rational.small) (hop_size Rational.small) = Ok L /\
  slice Rational.small w = Ok [Chunk w 0 (len L * hop_size Rational.small)].
Proof.
  intros w L.
  assert (min_length Rational.small < len (mono_samples w)) as Hl
    by (apply Z.ltb_lt; reflexivity).
  assert (rms (mono_samples w) (win_size Rational.small) (hop_size Rational.small)
          = Ok L) as Hrms by reflexivity.
  split; [exact Hl|]. split; [exact Hrms|].
  apply (loud_clip_is_one_chunk Rational.small w L Hl Hrms).
  intros x Hx. repeat (destruct Hx as [<-|Hx]; [reflexivity|]). destruct Hx.
Defined.

(** Two silent frames in a loud envelope: the ranges (3, 3) and (7, 7). *)
Lemma cut_ranges_in_order_witness :
  let L := [1; 1; 1; 0; 1; 1; 1; 0; 1]%Q in
  let st := {| silence_start := None; clip_start := 7; sil_tags := [(3, 3); (7, 7)] |} in
  let ts := [(3, 3); (7, 7)] in
  0 <= max_sil_kept Rational.small /\
  scan Rational.small L = Ok st /\
  trailing_silence Rational.small L st = Ok ts /\
  (forall lo hi, In (lo, hi) ts -> 0 <= lo <= hi /\ lo < len L /\ hi <= len L + 1) /\
  (forall i j lo1 hi1 lo2 hi2, (i < j)%nat ->
     nth_error ts i = Some (lo1, hi1) -> nth_error ts j = Some (lo2, hi2) ->
     hi1 < lo2 /\ hi1 < len L).
Proof.
  intros L st ts.
  assert (0 <= max_sil_kept Rational.small) as Hk by (apply Z.leb_le; reflexivity).
  assert (scan Rational.small L = Ok st) as Hscan by reflexivity.
  assert (trailing_silence Rational.small L st = Ok ts) as Htrail by reflexivity.
  split; [exact Hk|]. split; [exact Hscan|]. split; [exact Htrail|].
  exact (cut_ranges_in_order Rational.small Hk L st ts Hscan Htrail).
Defined.

(** Eight samples in five frames, one of them cut out: the chunks report
    6 and 4 samples, the range (3, 3) holds no frame, and the ten samples of
    the five frames are all there. *)
Lemma chunks_and_ranges_tile_witness :
  let w := Rational.mono [1; 1; 1; 1; 1; 0; 0; 1]%Q in
  let items := [Chunk (Rational.mono [1; 1; 1; 1; 1; 0]%Q) 0 6;
                Chunk (Rational.mono [0; 1]%Q) 6 10] in
  0 <= max_sil_kept Rational.small /\
  min_length Rational.small < len (mono_samples w) /\
  slice Rational.small w = Ok items /\
  exists L st ts,
    rms (mono_samples w) (win_size Rational.small) (hop_size Rational.small) = Ok L /\
    scan Rational.small L = Ok st /\
    trailing_silence Rational.small L st = Ok ts /\
    reported_length items + removed_frames (len L) ts * hop_size Rational.small
    = len L * hop_size Rational.small.
Proof.
  intros w items.
  assert (0 <= max_sil_kept Rational.small) as Hk by (apply Z.leb_le; reflexivity).
  assert (min_length Rational.small < len (mono_samples w)) as Hl
    by (apply Z.ltb_lt; reflexivity).
  assert (slice Rational.small w = Ok items) as E by reflexivity.
  split; [exact Hk|]. split; [exact Hl|]. split; [exact E|].
  exact (chunks_and_ranges_tile Rational.small Hk w items Hl E).
Defined.

(** Frames 1 to 3 of eight samples are the four samples 2 to 5; frames 3 to
    5 would be four samples too, and two are there. *)
Lemma chunk_length_within_report_witness :
  let w := Rational.mono [1; 2; 3; 4; 5; 6; 7; 8]%Q in
  0 <= hop_size Rational.small /\
  (num_samples (_apply_slice Rational.small w 1 3) = 4 /\
   num_samples (_apply_slice Rational.small w 3 5) = 2 /\
   num_samples (_apply_slice Rational.small w 3 5)
   <= 5 * hop_size Rational.small - 3 * hop_size Rational.small).
Proof.
  intros w.
  assert (0 <= hop_size Rational.small) as Hh by (apply Z.leb_le; reflexivity).
  assert (0 <= 1 <= 3) as H13 by lia.
  assert (0 <= 3 <= 5) as H35 by lia.
  split; [exact Hh|]. split; [|split].
  - exact (proj1 (chunk_length_within_report Rational.small w 1 3 Hh H13)).
  - exact (proj1 (chunk_length_within_report Rational.small w 3 5 Hh H35)).
  - exact (proj1 (proj2 (chunk_length_within_report Rational.small w 3 5 Hh H35))).
Defined.

(** A clip of three samples comes back bare and is unpacked into its
    samples. *)
Lemma unpacking_the_result_witness :
  let y := [1; 2; 3]%Q in
  len y <= min_length Rational.small /\ len y = 3 /\
  exists a b c, y = [a; b; c] /\
    (items <- slice Rational.small (Rational.mono y) ;; unpack_all items)
    = Ok [Samples (Num := Rational.numeric) a b c].
Proof.
  intros y.
  assert (len y <= min_length Rational.small) as Hs by (apply Z.leb_le; reflexivity).
  assert (len y = 3) as H3 by reflexivity.
  split; [exact Hs|]. split; [exact H3|].
  exact (proj2 (proj2 (unpacking_the_result Rational.small y)) Hs H3).
Defined.

(** [Slicer(24000)]. *)
Lemma constructed_frame_counts_witness :
  let self := @Build_Slicer Rational.numeric (1 # 100)%Q 480 1920 1000 15 100 in
  __init__ 24000 (-40) 20000 300 20 2000 = Ok self /\
  1 <= hop_size self /\
  hop_size self <= win_size self <= 4 * hop_size self /\
  1 <= min_interval self <= min_length self /\
  1 <= max_sil_kept self.
Proof.
  intros self.
  assert (__init__ 24000 (-40) 20000 300 20 2000 = Ok self) as E by reflexivity.
  split; [exact E|].
  apply (constructed_frame_counts 24000 (-40) 20000 300 20 2000 self); [lia|lia|exact E].
Defined.

(** An absolute path without a supported extension. *)
Lemma audio_path_none_iff_witness :
  get_correct_audio_path (fun _ => false) (lit "/tmp/clip") (lit "wavs")
    supported_formats = Returned None.
Proof.
  apply (proj2 (audio_path_none_iff (fun _ => false) (lit "/tmp/clip") (lit "wavs")
                  supported_formats)).
  split; reflexivity.
Defined.

(** A bare name for which no file exists. *)
Lemma audio_path_has_supported_extension_witness :
  get_correct_audio_path (fun _ => false) (lit "clip") (lit "wavs") supported_formats
  = Returned (Some (lit "wavs/clip.wav")) /\
  has_supported_extension supported_formats (lit "wavs/clip.wav") = true.
Proof.
  assert (get_correct_audio_path (fun _ => false) (lit "clip") (lit "wavs")
            supported_formats = Returned (Some (lit "wavs/clip.wav"))) as E
    by reflexivity.
  split; [exact E|].
  exact (audio_path_has_supported_extension (fun _ => false) (lit "clip") (lit "wavs")
           supported_formats (lit "wavs/clip.wav") E).
Defined.

(** Only [wavs/clip.mp3] exists. *)
Lemma audio_path_for_bare_name_witness :
  let exists_ := PyStr.eqb (lit "wavs/clip.mp3") in
  OsPath.isabs (lit "clip") = false /\
  has_supported_extension supported_formats (lit "clip") = false /\
  get_correct_audio_path exists_ (lit "clip") (lit "wavs") supported_formats
  = Returned (Some (lit "wavs/clip.mp3")).
Proof.
  intros exists_.
  assert (OsPath.isabs (lit "clip") = false) as Habs by reflexivity.
  assert (has_supported_extension supported_formats (lit "clip") = false) as Hext
    by reflexivity.
  split; [exact Habs|]. split; [exact Hext|].
  apply (proj1 (audio_path_for_bare_name exists_ (lit "clip") (lit "wavs")
                  supported_formats Habs Hext)
           [lit "wav"] (lit "mp3") (tl (tl supported_formats)) eq_refl).
  - intros e [<-|[]]. reflexivity.
  - reflexivity.
Defined.


(** Two rows, the text of the second too short: one entry is kept and one
    file is reported. *)
Lemma create_metadata_accounts_for_rows_witness :
  let data := lit "a|hello" ++ [newline] ++ lit "b|hi" ++ [newline] in
  exists st,
    create_metadata_scan (fun _ => true) (fun _ => true) (fun _ => Some 2%Q)
      characters (N.eqb 32) true (lit "wavs") data = Returned st /\
    (List.length (text_list st) + List.length (error_files st)
     = List.length (metadata_rows data))%nat /\
    prepared_ok st.
Proof.
  intros data. eexists. split; [reflexivity|].
  apply (create_metadata_accounts_for_rows (fun _ => true) (fun _ => true)
           (fun _ => Some 2%Q) characters (N.eqb 32) true (lit "wavs") data).
  reflexivity.
Defined.

(** A row that names [/tmp/clip]. *)
Lemma create_metadata_stops_on_unresolvable_witness :
  let data := lit "/tmp/clip|hello" in
  unresolvable (lit "/tmp/clip", lit "hello") /\
  exists e,
    create_metadata_scan (fun _ => true) (fun _ => true) (fun _ => Some 2%Q)
      characters (N.eqb 32) true (lit "wavs") data = Raised e.
Proof.
  intros data.
  assert (unresolvable (lit "/tmp/clip", lit "hello")) as Hun by (split; reflexivity).
  split; [exact Hun|].
  apply (proj2 (create_metadata_stops_on_unresolvable (fun _ => true) (fun _ => true)
                  (fun _ => Some 2%Q) characters (N.eqb 32) true (lit "wavs") data)).
  exists (lit "/tmp/clip", lit "hello"). split; [left; reflexivity|exact Hun].
Defined.

(** The vocabulary [a], [b] extended by [c] and [d]. *)
Lemma vocab_extend_appends_witness :
  let body := lit "a" ++ [newline] ++ lit "b" in
  let symbols := lit "c,d" in
  written (vocab_extend (lit "vocab.txt") (Some (body ++ [newline])) (Some 2%nat) symbols)
  = Some (lit "a" ++ [newline] ++ lit "b" ++ [newline]
          ++ lit "c" ++ [newline] ++ lit "d" ++ [newline]).
Proof.
  intros body symbols.
  apply (proj1 (vocab_extend_appends (lit "vocab.txt") body (Some 2%nat) symbols
                  ltac:(discriminate) ltac:(discriminate))).
Defined.

(** The vocabulary [a] and the transcript [abc]: [b] and [c] are missing,
    and are not once the vocabulary is extended. *)
Lemma checking_after_extending_witness :
  let isspace := N.eqb 32 in
  let body := lit "a" in
  let metadata := lit "f|abc" in
  let vocab_miss :=
    snd (vocab_check characters isspace (lit "vocab.txt") (lit "metadata.csv")
           (Some (body ++ [newline])) (Some metadata) (lit "char")) in
  vocab_miss = lit "b,c" /\
  exists text,
    written (vocab_extend (lit "vocab.txt") (Some (body ++ [newline])) (Some 1%nat)
               vocab_miss) = Some text /\
    vocab_check characters isspace (lit "vocab.txt") (lit "metadata.csv")
      (Some text) (Some metadata) (lit "char")
    = (lit "You can train using your language !", []).
Proof.
  intros isspace body metadata vocab_miss. split; [reflexivity|].
  apply (checking_after_extending characters isspace (lit "vocab.txt")
           (lit "metadata.csv") body metadata (lit "char") (Some 1%nat)).
  - discriminate.
  - intros t Ht. vm_compute in Ht. destruct Ht as [<-|[<-|[]]];
      repeat split; vm_compute; intuition discriminate.
Defined.
